(** * Contact Management System: the contact record and the contact store

    A shallow embedding of [src/script.ts] (classes [Contact] and
    [ContactManager]; the compiled [script.js] is the same code without
    types).  The DOM side of the manager (modal, form, rendering) is left
    out: none of it writes [contacts], [filteredContacts] or the storage
    slot.  It is modelled on its own further down (the page, module
    [UI]), where each method is the one defined here followed by what it
    does to the document.

    Run-time values are modelled as follows.
    - [number]: IEEE-754 binary64, Rocq's primitive [float]; [===] on
      numbers is [PrimFloat.eqb] (so [NaN === NaN] is false and
      [0 === -0] is true).
    - strings: [string], a sequence of code units below 256 (the
      Basic Latin and Latin-1 Supplement blocks); records and queries
      are made of such units.  [toLowerCase] keeps to these units.
      [toUpperCase] does not (it gives two units for 223 and units
      above 255 for 181 and 255), so its result is a sequence of 16-bit
      units, [list N].
    - [Date]: its time value, an integer count of milliseconds, or the
      invalid date.
    - objects held in arrays: values.  [contacts] never holds one object
      twice (each comes from its own [new Contact]), and every method
      that mutates a record reassigns [filteredContacts] before it
      returns, so between calls the two arrays are determined by the
      values of their elements.
    - [localStorage]: the slot ['contacts'], empty or holding the parsed
      form of the text [JSON.stringify] wrote.  Writing the slot is taken
      to succeed. *)

From Stdlib Require Import List String Ascii Bool ZArith Lia DecimalString.
From Stdlib Require Import Floats.
Import ListNotations.

Local Open Scope string_scope.
Local Open Scope list_scope.

(** ** Run-time primitives *)

Module JS.

Definition number : Set := float.

(** [x === y] on two numbers. *)
Definition strict_eq (x y : number) : bool := PrimFloat.eqb x y.

(** What [===] compares, on the unpacked form of two numbers: the two
    zeros are one value, [NaN] is none. *)
Definition same_value (a b : spec_float) : Prop :=
  match a, b with
  | S754_zero _, S754_zero _ => True
  | S754_infinity s1, S754_infinity s2 => s1 = s2
  | S754_finite s1 m1 e1, S754_finite s2 m2 e2 => s1 = s2 /\ m1 = m2 /\ e1 = e2
  | _, _ => False
  end.

(** [ToBoolean] of a string: only the empty string is falsy. *)
Definition truthy (s : string) : bool :=
  match s with
  | EmptyString => false
  | String _ _ => true
  end.

(** [v || d] where [v] is a string or [undefined] and [d] a string. *)
Definition or_else (v : option string) (d : string) : string :=
  match v with
  | Some s => if truthy s then s else d
  | None => d
  end.

(** A parameter with a default value: the default is taken for
    [undefined] only. *)
Definition default_arg (v : option string) (d : string) : string :=
  match v with
  | Some s => s
  | None => d
  end.

(** [s.charAt(n)]: the code unit at [n] as a string, [''] out of range. *)
Definition charAt (n : nat) (s : string) : string :=
  match String.get n s with
  | Some c => String c EmptyString
  | None => EmptyString
  end.

(** [toLowerCase] on one unit: the capital letters are A to Z and, in
    Latin-1, 192 to 222 but for the multiplication sign 215; each has its
    small letter 32 further on. *)
Definition lower_unit (c : ascii) : ascii :=
  let n := nat_of_ascii c in
  if ((65 <=? n)%nat && (n <=? 90)%nat)
     || ((192 <=? n)%nat && (n <=? 222)%nat && negb (n =? 215)%nat)
  then ascii_of_nat (n + 32) else c.

(** [toUpperCase] on one unit, as 16-bit units: the small letters a to z
    and 224 to 254 but for the division sign 247 have their capital 32
    before; sharp s (223) gives SS, the micro sign (181) the Greek capital
    mu and y with diaeresis (255) its capital, both above 255. *)
Definition upper_units (c : ascii) : list N :=
  let n := N_of_ascii c in
  if ((97 <=? n)%N && (n <=? 122)%N)
     || ((224 <=? n)%N && (n <=? 254)%N && negb (n =? 247)%N)
  then [(n - 32)%N]
  else if (n =? 223)%N then [83%N; 83%N]
  else if (n =? 181)%N then [924%N]
  else if (n =? 255)%N then [376%N]
  else [n].

(** A string of the model as 16-bit units. *)
Definition widen (s : string) : list N :=
  map N_of_ascii (list_ascii_of_string s).

Fixpoint toLowerCase (s : string) : string :=
  match s with
  | EmptyString => EmptyString
  | String c r => String (lower_unit c) (toLowerCase r)
  end.

Fixpoint toUpperCase (s : string) : list N :=
  match s with
  | EmptyString => []
  | String c r => upper_units c ++ toUpperCase r
  end.

(** White space and line terminators below 256: TAB, LF, VT, FF, CR,
    SP and NBSP. *)
Definition isWhiteSpace (c : ascii) : bool :=
  let n := nat_of_ascii c in
  ((9 <=? n)%nat && (n <=? 13)%nat) || (n =? 32)%nat || (n =? 160)%nat.

Fixpoint trimStart (s : string) : string :=
  match s with
  | EmptyString => EmptyString
  | String c r => if isWhiteSpace c then trimStart r else s
  end.

Fixpoint trimEnd (s : string) : string :=
  match s with
  | EmptyString => EmptyString
  | String c r =>
      match trimEnd r with
      | EmptyString => if isWhiteSpace c then EmptyString else String c EmptyString
      | String d r' => String c (String d r')
      end
  end.

(** [s.trim()]. *)
Definition trim (s : string) : string := trimEnd (trimStart s).

(** [s.includes(t)]: [t] occurs in [s] at some position. *)
Fixpoint includes (s t : string) : bool :=
  if String.prefix t s then true
  else match s with
       | EmptyString => false
       | String _ r => includes r t
       end.

(** A [Date] object, by its time value. *)
Inductive Date : Set :=
| InvalidDate
| DateAt (ms : Z).

(** [arr.findIndex(p)], [-1] when no element satisfies [p]. *)
Fixpoint findIndex_from {A : Type} (p : A -> bool) (l : list A) (i : Z) : Z :=
  match l with
  | [] => (-1)%Z
  | x :: r => if p x then i else findIndex_from p r (i + 1)%Z
  end.

Definition findIndex {A : Type} (p : A -> bool) (l : list A) : Z :=
  findIndex_from p l 0%Z.

(** [arr.splice(start, 1)]: the array afterwards.  A negative [start]
    counts from the end. *)
Definition splice1 {A : Type} (start : Z) (l : list A) : list A :=
  let len := Z.of_nat (List.length l) in
  let from := if (start <? 0)%Z then Z.max (len + start) 0 else Z.min start len in
  firstn (Z.to_nat from) l ++ skipn (S (Z.to_nat from)) l.

End JS.

(** ** The data model *)

Record Contact : Set := mkContact {
  id : JS.number;
  firstName : string;
  lastName : string;
  userName : string;
  phone : string;
  email : string;
  address : string;
  createdAt : JS.Date
}.

(** [ContactFormData]: [email] and [address] may be absent. *)
Record ContactFormData : Set := mkFormData {
  form_firstName : string;
  form_lastName : string;
  form_userName : string;
  form_phone : string;
  form_email : option string;
  form_address : option string
}.

(** [Partial<ContactFormData>]: every field may be absent. *)
Record PartialFormData : Set := mkPartial {
  part_firstName : option string;
  part_lastName : option string;
  part_userName : option string;
  part_phone : option string;
  part_email : option string;
  part_address : option string
}.

(** A [ContactFormData] used where a [Partial<ContactFormData>] is asked. *)
Definition asPartial (d : ContactFormData) : PartialFormData :=
  {| part_firstName := Some (form_firstName d);
     part_lastName := Some (form_lastName d);
     part_userName := Some (form_userName d);
     part_phone := Some (form_phone d);
     part_email := form_email d;
     part_address := form_address d |}.

(** What one [new Contact(...)] reads from its surroundings: [Date.now()]
    and [Math.random()] for the id, and the time value of [new Date()]. *)
Record Clock : Set := mkClock {
  date_now : JS.number;
  math_random : JS.number;
  new_date : Z
}.

(** ** class Contact *)

(** [new Contact(firstName, lastName, userName, phone, email = '',
    address = '')]. *)
Definition newContact (k : Clock) (fn ln un ph : string)
    (em ad : option string) : Contact :=
  {| id := PrimFloat.add (date_now k) (math_random k);
     firstName := fn;
     lastName := ln;
     userName := un;
     phone := ph;
     email := JS.default_arg em "";
     address := JS.default_arg ad "";
     createdAt := JS.DateAt (new_date k) |}.

Definition getFullName (c : Contact) : string :=
  (firstName c ++ " " ++ lastName c)%string.

Definition getInitials (c : Contact) : list N :=
  JS.toUpperCase (JS.charAt 0 (firstName c) ++ JS.charAt 0 (lastName c))%string.

Definition update (c : Contact) (data : PartialFormData) : Contact :=
  {| id := id c;
     firstName := JS.or_else (part_firstName data) (firstName c);
     lastName := JS.or_else (part_lastName data) (lastName c);
     userName := JS.or_else (part_userName data) (userName c);
     phone := JS.or_else (part_phone data) (phone c);
     email := JS.or_else (part_email data) (email c);
     address := JS.or_else (part_address data) (address c);
     createdAt := createdAt c |}.

(** ** The persisted snapshot

    [JSON.stringify(this.contacts)] followed by [JSON.parse]: an array of
    plain objects, one per record, with the record's eight properties.
    The text in between is not modelled; what the two functions do to each
    kind of value is.
    - A finite number is written in a form that reads back as the same
      number, except that [-0] is written [0]; [NaN] and the infinities
      are written [null].
    - A string reads back as itself.
    - A [Date] is written through [toJSON]: the [toISOString()] text of a
      valid date, [null] for the invalid date.  [StoredIso ms] stands for
      the text [toISOString()] gives for the time value [ms], which the
      [Date] constructor reads back as [ms]. *)

Inductive StoredDate : Set :=
| StoredAbsent
| StoredNull
| StoredIso (ms : Z).

(** One element of the parsed array ([data] in [loadContacts]).  The
    properties [loadContacts] guards against being absent are optional;
    [stored_id] is [None] for [null]. *)
Record StoredContact : Set := mkStored {
  stored_id : option JS.number;
  stored_firstName : string;
  stored_lastName : string;
  stored_userName : option string;
  stored_phone : string;
  stored_email : option string;
  stored_address : option string;
  stored_createdAt : StoredDate
}.

Module JSON.

(** A number as written and read back: [None] is [null]. *)
Definition of_number (x : JS.number) : option JS.number :=
  if is_finite x then Some (if is_zero x then zero else x) else None.

(** [Date.prototype.toJSON]. *)
Definition of_date (d : JS.Date) : StoredDate :=
  match d with
  | JS.InvalidDate => StoredNull
  | JS.DateAt ms => StoredIso ms
  end.

(** What [JSON.parse(JSON.stringify(c))] is for a record [c]. *)
Definition of_contact (c : Contact) : StoredContact :=
  {| stored_id := of_number (id c);
     stored_firstName := firstName c;
     stored_lastName := lastName c;
     stored_userName := Some (userName c);
     stored_phone := phone c;
     stored_email := Some (email c);
     stored_address := Some (address c);
     stored_createdAt := of_date (createdAt c) |}.

Definition stringify (l : list Contact) : list StoredContact :=
  map of_contact l.

End JSON.

(** [new Date(v)] for a stored [createdAt]: [undefined] gives the invalid
    date, [null] the epoch. *)
Definition date_of_stored (v : StoredDate) : JS.Date :=
  match v with
  | StoredAbsent => JS.InvalidDate
  | StoredNull => JS.DateAt 0
  | StoredIso ms => JS.DateAt ms
  end.

(** [contact.id = data.id].  When [data.id] is [null] the record is left
    with an id that is no number; it is represented by [NaN], which like
    [null] differs ([===]) from every number and is written back as
    [null]. *)
Definition id_of_stored (v : option JS.number) : JS.number :=
  match v with
  | Some x => x
  | None => nan
  end.

Definition set_id (c : Contact) (x : JS.number) : Contact :=
  {| id := x;
     firstName := firstName c;
     lastName := lastName c;
     userName := userName c;
     phone := phone c;
     email := email c;
     address := address c;
     createdAt := createdAt c |}.

Definition set_createdAt (c : Contact) (d : JS.Date) : Contact :=
  {| id := id c;
     firstName := firstName c;
     lastName := lastName c;
     userName := userName c;
     phone := phone c;
     email := email c;
     address := address c;
     createdAt := d |}.

(** ** class ContactManager *)

(** The manager's three fields, and the storage slot it reads and
    writes. *)
Record ContactManager : Set := mkManager {
  contacts : list Contact;
  currentEditId : option JS.number;
  filteredContacts : list Contact;
  localStorage : option (list StoredContact)
}.

Definition set_contacts (s : ContactManager) (l : list Contact) : ContactManager :=
  {| contacts := l;
     currentEditId := currentEditId s;
     filteredContacts := filteredContacts s;
     localStorage := localStorage s |}.

Definition set_filteredContacts (s : ContactManager) (l : list Contact) : ContactManager :=
  {| contacts := contacts s;
     currentEditId := currentEditId s;
     filteredContacts := l;
     localStorage := localStorage s |}.

(** The fields as the class initialises them, over a given storage. *)
Definition newManager (slot : option (list StoredContact)) : ContactManager :=
  {| contacts := [];
     currentEditId := None;
     filteredContacts := [];
     localStorage := slot |}.

Definition saveToStorage (s : ContactManager) : ContactManager :=
  {| contacts := contacts s;
     currentEditId := currentEditId s;
     filteredContacts := filteredContacts s;
     localStorage := Some (JSON.stringify (contacts s)) |}.

(** The callback of [contactsData.map] in [loadContacts]. *)
Definition revive (k : Clock) (data : StoredContact) : Contact :=
  let contact :=
    newContact k (stored_firstName data) (stored_lastName data)
      (JS.or_else (stored_userName data) "") (stored_phone data)
      (stored_email data) (stored_address data) in
  let contact := set_id contact (id_of_stored (stored_id data)) in
  set_createdAt contact (date_of_stored (stored_createdAt data)).

(** [contactsData.map(...)]; the call for element [i] reads [clock i]. *)
Fixpoint revive_from (clock : nat -> Clock) (i : nat)
    (data : list StoredContact) : list Contact :=
  match data with
  | [] => []
  | d :: r => revive (clock i) d :: revive_from clock (S i) r
  end.

Definition loadContacts (clock : nat -> Clock) (s : ContactManager) : ContactManager :=
  let s :=
    match localStorage s with
    | Some contactsData => set_contacts s (revive_from clock 0 contactsData)
    | None => s
    end in
  set_filteredContacts s (contacts s).

(** [new ContactManager()] up to the end of [init], over a given storage. *)
Definition init (clock : nat -> Clock) (slot : option (list StoredContact)) : ContactManager :=
  loadContacts clock (newManager slot).

Definition addContact (k : Clock) (contactData : ContactFormData)
    (s : ContactManager) : Contact * ContactManager :=
  let contact :=
    newContact k (form_firstName contactData) (form_lastName contactData)
      (form_userName contactData) (form_phone contactData)
      (Some (JS.or_else (form_email contactData) ""))
      (Some (JS.or_else (form_address contactData) "")) in
  let s := set_contacts s (contacts s ++ [contact]) in
  let s := set_filteredContacts s (contacts s) in
  let s := saveToStorage s in
  (contact, s).

(** The array after the first element satisfying [p], if any, has been
    changed in place by [f]. *)
Fixpoint mutate_first {A : Type} (p : A -> bool) (f : A -> A) (l : list A) : list A :=
  match l with
  | [] => []
  | x :: r => if p x then f x :: r else x :: mutate_first p f r
  end.

(** The callback [c => c.id === id] of [find] and [findIndex]. *)
Definition has_id (i : JS.number) (c : Contact) : bool := JS.strict_eq (id c) i.

(** The payload is typed [ContactFormData] in the source and handed to
    [Contact.update], which takes a [Partial<ContactFormData>]; the wider
    type is used here ([asPartial] gives the other). *)
Definition updateContact (i : JS.number) (contactData : PartialFormData)
    (s : ContactManager) : option Contact * ContactManager :=
  match find (has_id i) (contacts s) with
  | Some contact =>
      let s :=
        set_contacts s
          (mutate_first (has_id i) (fun c => update c contactData) (contacts s)) in
      let s := set_filteredContacts s (contacts s) in
      let s := saveToStorage s in
      (Some (update contact contactData), s)
  | None => (None, s)
  end.

Definition deleteContact (i : JS.number) (s : ContactManager) : bool * ContactManager :=
  let index := JS.findIndex (has_id i) (contacts s) in
  if negb (index =? -1)%Z then
    let s := set_contacts s (JS.splice1 index (contacts s)) in
    let s := set_filteredContacts s (contacts s) in
    let s := saveToStorage s in
    (true, s)
  else (false, s).

(** The predicate of [this.contacts.filter] in [searchContacts]. *)
Definition matches (searchTerm : string) (contact : Contact) : bool :=
  JS.includes (JS.toLowerCase (firstName contact)) searchTerm
  || JS.includes (JS.toLowerCase (lastName contact)) searchTerm
  || JS.includes (JS.toLowerCase (userName contact)) searchTerm
  || JS.includes (phone contact) searchTerm
  || (JS.truthy (email contact)
      && JS.includes (JS.toLowerCase (email contact)) searchTerm).

Definition searchContacts (query : string) (s : ContactManager) : ContactManager :=
  if negb (JS.truthy (JS.trim query)) then
    set_filteredContacts s (contacts s)
  else
    let searchTerm := JS.toLowerCase query in
    set_filteredContacts s (filter (matches searchTerm) (contacts s)).

(** Modelled from the spec: [getCount()], the "size of full collection,
    for statistics display".  The source has no method of that name; its
    [updateStats] displays [this.contacts.length]. *)
Definition getCount (s : ContactManager) : nat := List.length (contacts s).

(** ** Sequences of calls *)

(** One call on the store from outside.  [CallReload] is a page load: a
    new manager is constructed and initialised over the storage the
    previous one left. *)
Inductive Call : Set :=
| CallAdd (k : Clock) (contactData : ContactFormData)
| CallUpdate (i : JS.number) (contactData : PartialFormData)
| CallDelete (i : JS.number)
| CallSearch (query : string)
| CallReload (clock : nat -> Clock).

Definition call (c : Call) (s : ContactManager) : ContactManager :=
  match c with
  | CallAdd k contactData => snd (addContact k contactData s)
  | CallUpdate i contactData => snd (updateContact i contactData s)
  | CallDelete i => snd (deleteContact i s)
  | CallSearch query => searchContacts query s
  | CallReload clock => init clock (localStorage s)
  end.

Definition run (calls : list Call) (s : ContactManager) : ContactManager :=
  fold_left (fun s c => call c s) calls s.

(** The store of a first visit: nothing in storage. *)
Definition emptyStore : ContactManager := newManager None.

Definition reachable (s : ContactManager) : Prop :=
  exists calls, s = run calls emptyStore.

(** A run of [addContact] calls, with the records they return. *)
Fixpoint add_all (adds : list (Clock * ContactFormData)) (s : ContactManager)
    : list Contact * ContactManager :=
  match adds with
  | [] => ([], s)
  | (k, contactData) :: r =>
      let (c, s1) := addContact k contactData s in
      let (cs, s2) := add_all r s1 in
      (c :: cs, s2)
  end.

(** ** Properties the statements below are about *)

(** The merge of one field: replaced by a non-empty incoming string, kept
    when the incoming value is absent or empty. *)
Definition merged (incoming : option string) (old new : string) : Prop :=
  (forall v, incoming = Some v -> v <> "" -> new = v) /\
  (incoming = None \/ incoming = Some "" -> new = old).

(** [t] is a substring of [s]. *)
Definition occurs_in (t s : string) : Prop :=
  exists a b, s = (a ++ t ++ b)%string.

(** Empty or white space only. *)
Fixpoint blank (s : string) : bool :=
  match s with
  | EmptyString => true
  | String c r => JS.isWhiteSpace c && blank r
  end.

(** The match of a record against a query, in the words of the search
    rule: the lowercased query occurs in the lowercased first name, last
    name, user name or email, or in the phone as it is. *)
Definition spec_matches (query : string) (c : Contact) : Prop :=
  let t := JS.toLowerCase query in
  occurs_in t (JS.toLowerCase (firstName c))
  \/ occurs_in t (JS.toLowerCase (lastName c))
  \/ occurs_in t (JS.toLowerCase (userName c))
  \/ occurs_in t (phone c)
  \/ occurs_in t (JS.toLowerCase (email c)).

(** No element of [l] satisfies [p]. *)
Definition none_of {A : Type} (p : A -> bool) (l : list A) : Prop :=
  Forall (fun x => p x = false) l.

(** Every record differs ([===]) in id from the records after it. *)
Definition distinct_ids (l : list Contact) : Prop :=
  ForallOrdPairs (fun x y => JS.strict_eq x y = false) (map id l).

(** A finite number other than [-0]. *)
Definition plain_number (x : JS.number) : Prop :=
  is_finite x = true /\ (is_zero x = true -> x = zero).

(** A record whose id is a plain number and whose date is valid. *)
Definition storable (c : Contact) : Prop :=
  plain_number (id c) /\ createdAt c <> JS.InvalidDate.

(** The id a constructor call reading [k] assigns. *)
Definition drawn_id (k : Clock) : JS.number :=
  PrimFloat.add (date_now k) (math_random k).

(** [x] is a plain number and the id of no record of [l]. *)
Definition fresh_id (x : JS.number) (l : list Contact) : Prop :=
  plain_number x /\ none_of (has_id x) l.

(** An [addContact] draws an id that is fresh in the store it is called
    on; nothing is asked of the other calls. *)
Definition fresh_call (c : Call) (s : ContactManager) : Prop :=
  match c with
  | CallAdd k _ => fresh_id (drawn_id k) (contacts s)
  | _ => True
  end.

(** Every [addContact] of the run draws an id that is fresh at that
    point. *)
Fixpoint fresh_calls (calls : list Call) (s : ContactManager) : Prop :=
  match calls with
  | [] => True
  | c :: r => fresh_call c s /\ fresh_calls r (call c s)
  end.

(** An [addContact] draws a finite number other than [-0] for the id, as
    it does with any clock reading and random number there is; nothing
    is asked of the other calls. *)
Definition plain_draw (c : Call) : Prop :=
  match c with
  | CallAdd k _ => plain_number (drawn_id k)
  | _ => True
  end.

Definition plain_draws (calls : list Call) : Prop := Forall plain_draw calls.

(** The storage slot holds what the last save of [contacts] wrote. *)
Definition persisted (s : ContactManager) : Prop :=
  (localStorage s = None /\ contacts s = [])
  \/ localStorage s = Some (JSON.stringify (contacts s)).

Definition consistent (s : ContactManager) : Prop :=
  distinct_ids (contacts s) /\ Forall storable (contacts s) /\ persisted s.

Definition kept (s : ContactManager) : Prop :=
  persisted s /\ Forall storable (contacts s).

Definition as_calls (adds : list (Clock * ContactFormData)) : list Call :=
  map (fun a => CallAdd (fst a) (snd a)) adds.

(** Saving [l] and loading it back in a new manager. *)
Definition save_then_load (clock : nat -> Clock) (l : list Contact) : list Contact :=
  contacts (init clock (localStorage (saveToStorage (set_contacts emptyStore l)))).

(** ** Sample data *)

Module Sample.

Definition clock1 : Clock :=
  {| date_now := 1700000000000%float;
     math_random := 0.5%float;
     new_date := 1700000000000%Z |}.

(** Same millisecond, another random number: 1/16384 above [clock1]'s. *)
Definition clock2 : Clock :=
  {| date_now := 1700000000000%float;
     math_random := 0.50006103515625%float;
     new_date := 1700000000000%Z |}.

(** One millisecond later. *)
Definition clock3 : Clock :=
  {| date_now := 1700000000001%float;
     math_random := 0.25%float;
     new_date := 1700000000001%Z |}.

Definition jane : ContactFormData :=
  {| form_firstName := "Jane";
     form_lastName := "Doe";
     form_userName := "jdoe";
     form_phone := "555-1234";
     form_email := None;
     form_address := None |}.

Definition bob : ContactFormData :=
  {| form_firstName := "Bob";
     form_lastName := "Smith";
     form_userName := "bsmith";
     form_phone := "555-9999";
     form_email := Some "bob@example.org";
     form_address := Some "" |}.

(** [{firstName: "", lastName: "Doer"}]. *)
Definition doer : PartialFormData :=
  {| part_firstName := Some "";
     part_lastName := Some "Doer";
     part_userName := None;
     part_phone := None;
     part_email := None;
     part_address := None |}.

Definition janeId : JS.number := drawn_id clock1.
Definition bobId : JS.number := drawn_id clock3.

(** Jane, then Bob a millisecond later. *)
Definition two : ContactManager :=
  run [CallAdd clock1 jane; CallAdd clock3 bob] emptyStore.

(** Jane and Bob added within one millisecond. *)
Definition clashAdds : list (Clock * ContactFormData) :=
  [(clock1, jane); (clock2, bob)].

Definition clash : ContactManager := snd (add_all clashAdds emptyStore).

(** The record the second of these adds returns. *)
Definition bobInClash : Contact :=
  fst (addContact clock2 bob (snd (addContact clock1 jane emptyStore))).

(** A session: Jane is added and searched for, the page is loaded again,
    Jane is renamed; then Bob is added. *)
Definition history : list Call :=
  [CallAdd clock1 jane; CallSearch "doe"; CallReload (fun _ => clock2);
   CallUpdate janeId doer].

Definition later : list (Clock * ContactFormData) := [(clock3, bob)].

(** Jane alone. *)
Definition one : ContactManager := run [CallAdd clock1 jane] emptyStore.

(** A snapshot written without [createdAt] (and without [userName], the
    case [loadContacts] provides for). *)
Definition legacy : list StoredContact :=
  [ {| stored_id := Some 1700000000000.5%float;
       stored_firstName := "Jane";
       stored_lastName := "Doe";
       stored_userName := None;
       stored_phone := "555-1234";
       stored_email := None;
       stored_address := None;
       stored_createdAt := StoredAbsent |} ].

Definition legacyStore : ContactManager := init (fun _ => clock3) (Some legacy).

End Sample.

(** ** Further notions *)

Definition valid_date (c : Contact) : Prop := createdAt c <> JS.InvalidDate.

(** The filtered view is a selection of [contacts], in their order. *)
Definition derived_view (s : ContactManager) : Prop :=
  exists keep, filteredContacts s = filter keep (contacts s).

Definition settled (s : ContactManager) : Prop :=
  persisted s /\ Forall valid_date (contacts s) /\ derived_view s.

Definition is_letter (c : ascii) : bool :=
  let n := nat_of_ascii c in
  ((65 <=? n)%nat && (n <=? 90)%nat) || ((97 <=? n)%nat && (n <=? 122)%nat).

Definition is_lower_letter (c : ascii) : bool :=
  let n := nat_of_ascii c in (97 <=? n)%nat && (n <=? 122)%nat.

Fixpoint some_unit (p : ascii -> bool) (s : string) : bool :=
  match s with
  | EmptyString => false
  | String c r => p c || some_unit p r
  end.

(** [s.trim()] changes nothing. *)
Definition trimmed (s : string) : Prop := JS.trim s = s.

(** ** The page

    What the manager reads and writes of the document.  The six inputs of
    the form, the modal and its title are used without a test for their
    presence and are taken to exist; [contactsContainer], [emptyState] and
    [contactCount] are tested for and may be missing ([None]).  [alerts],
    [prompts] and [errors] record the messages given to [alert],
    [confirm] and [console.error], oldest first. *)

Record FormValues : Set := mkForm {
  val_firstName : string;
  val_lastName : string;
  val_userName : string;
  val_phone : string;
  val_email : string;
  val_address : string
}.

Record Page : Set := mkPage {
  inputs : FormValues;
  defaults : FormValues;
  modalTitle : string;
  modalDisplay : string;
  alerts : list string;
  prompts : list string;
  container : option string;
  emptyState : option string;
  contactCount : option string;
  errors : list string
}.

Record App : Set := mkApp {
  manager : ContactManager;
  page : Page
}.

(** What the page takes from outside the model: the text of a number
    in a template, the four icons (characters outside the code units
    modelled), and what the six inputs hold once values have been
    assigned to their [value] (an input keeps a sanitised form of what
    it is given, according to its type: a text input drops line breaks;
    the types are in the HTML, not in the source). *)
Record Host : Set := mkHost {
  numberToString : JS.number -> string;
  icon_user : string;
  icon_phone : string;
  icon_mail : string;
  icon_pin : string;
  held : FormValues -> FormValues
}.

(** The six values [openEditModal] assigns to the inputs. *)
Definition fieldsOf (contact : Contact) : FormValues :=
  {| val_firstName := firstName contact;
     val_lastName := lastName contact;
     val_userName := userName contact;
     val_phone := phone contact;
     val_email := email contact;
     val_address := address contact |}.

(** A text input's value sanitization: line feeds and carriage returns
    are dropped. *)
Fixpoint stripNewlines (s : string) : string :=
  match s with
  | EmptyString => EmptyString
  | String c r =>
      if (nat_of_ascii c =? 10)%nat || (nat_of_ascii c =? 13)%nat
      then stripNewlines r else String c (stripNewlines r)
  end.

(** Six text inputs. *)
Definition textInputs (v : FormValues) : FormValues :=
  {| val_firstName := stripNewlines (val_firstName v);
     val_lastName := stripNewlines (val_lastName v);
     val_userName := stripNewlines (val_userName v);
     val_phone := stripNewlines (val_phone v);
     val_email := stripNewlines (val_email v);
     val_address := stripNewlines (val_address v) |}.

Definition set_currentEditId (s : ContactManager) (v : option JS.number) : ContactManager :=
  {| contacts := contacts s;
     currentEditId := v;
     filteredContacts := filteredContacts s;
     localStorage := localStorage s |}.

Definition set_inputs (p : Page) (v : FormValues) : Page :=
  {| inputs := v; defaults := defaults p; modalTitle := modalTitle p;
     modalDisplay := modalDisplay p; alerts := alerts p; prompts := prompts p;
     container := container p; emptyState := emptyState p;
     contactCount := contactCount p; errors := errors p |}.

Definition set_modalTitle (p : Page) (v : string) : Page :=
  {| inputs := inputs p; defaults := defaults p; modalTitle := v;
     modalDisplay := modalDisplay p; alerts := alerts p; prompts := prompts p;
     container := container p; emptyState := emptyState p;
     contactCount := contactCount p; errors := errors p |}.

Definition set_modalDisplay (p : Page) (v : string) : Page :=
  {| inputs := inputs p; defaults := defaults p; modalTitle := modalTitle p;
     modalDisplay := v; alerts := alerts p; prompts := prompts p;
     container := container p; emptyState := emptyState p;
     contactCount := contactCount p; errors := errors p |}.

Definition alert (p : Page) (message : string) : Page :=
  {| inputs := inputs p; defaults := defaults p; modalTitle := modalTitle p;
     modalDisplay := modalDisplay p; alerts := alerts p ++ [message];
     prompts := prompts p;
     container := container p; emptyState := emptyState p;
     contactCount := contactCount p; errors := errors p |}.

Definition confirm (p : Page) (message : string) : Page :=
  {| inputs := inputs p; defaults := defaults p; modalTitle := modalTitle p;
     modalDisplay := modalDisplay p; alerts := alerts p;
     prompts := prompts p ++ [message];
     container := container p; emptyState := emptyState p;
     contactCount := contactCount p; errors := errors p |}.

Definition console_error (p : Page) (message : string) : Page :=
  {| inputs := inputs p; defaults := defaults p; modalTitle := modalTitle p;
     modalDisplay := modalDisplay p; alerts := alerts p; prompts := prompts p;
     container := container p; emptyState := emptyState p;
     contactCount := contactCount p; errors := errors p ++ [message] |}.

Definition set_view (p : Page) (html display : string) : Page :=
  {| inputs := inputs p; defaults := defaults p; modalTitle := modalTitle p;
     modalDisplay := modalDisplay p; alerts := alerts p; prompts := prompts p;
     container := Some html; emptyState := Some display;
     contactCount := contactCount p; errors := errors p |}.

Definition set_contactCount (p : Page) (text : string) : Page :=
  {| inputs := inputs p; defaults := defaults p; modalTitle := modalTitle p;
     modalDisplay := modalDisplay p; alerts := alerts p; prompts := prompts p;
     container := container p; emptyState := emptyState p;
     contactCount := Some text; errors := errors p |}.

(** [ToBoolean] of a number: false for the two zeros and [NaN]. *)
Definition truthy_number (x : JS.number) : bool := negb (is_zero x || is_nan x).

(** [n.toString()] for an array length. *)
Definition length_toString (n : nat) : string :=
  NilEmpty.string_of_uint (Nat.to_uint n).

Module UI.

Definition dq : string := String (ascii_of_nat 34) EmptyString.
Definition nl : string := String (ascii_of_nat 10) EmptyString.

Fixpoint spaces (n : nat) : string :=
  match n with
  | O => EmptyString
  | S k => String (ascii_of_nat 32) (spaces k)
  end.

(** [ class="name"]. *)
Definition cls (name : string) : string :=
  (" class=" ++ dq ++ name ++ dq)%string.

(** The inner template of the optional email and address lines. *)
Definition optionalLine (icon text : string) : string :=
  ("<div" ++ cls "contact-info" ++ "><span" ++ cls "icon" ++ ">" ++ icon
   ++ "</span> " ++ text ++ "</div>")%string.

(** The template of one card in [renderContacts]. *)
Definition card (h : Host) (contact : Contact) : string :=
  (nl ++ spaces 12 ++ "<div" ++ cls "contact-card" ++ ">"
   ++ nl ++ spaces 16 ++ "<div" ++ cls "contact-name" ++ ">"
      ++ getFullName contact ++ "</div>"
   ++ nl ++ spaces 16 ++ "<div" ++ cls "contact-info" ++ ">"
   ++ nl ++ spaces 20 ++ "<span" ++ cls "icon" ++ ">" ++ icon_user h
      ++ "</span> " ++ userName contact
   ++ nl ++ spaces 16 ++ "</div>"
   ++ nl ++ spaces 16 ++ "<div" ++ cls "contact-info" ++ ">"
   ++ nl ++ spaces 20 ++ "<span" ++ cls "icon" ++ ">" ++ icon_phone h
      ++ "</span> " ++ phone contact
   ++ nl ++ spaces 16 ++ "</div>"
   ++ nl ++ spaces 16
      ++ (if JS.truthy (email contact)
          then optionalLine (icon_mail h) (email contact) else "")
   ++ nl ++ spaces 16
      ++ (if JS.truthy (address contact)
          then optionalLine (icon_pin h) (address contact) else "")
   ++ nl ++ spaces 16 ++ "<div" ++ cls "contact-actions" ++ ">"
   ++ nl ++ spaces 20 ++ "<button" ++ cls "btn btn-secondary btn-small"
      ++ " onclick=" ++ dq ++ "contactManager.openEditModal("
      ++ numberToString h (id contact) ++ ")" ++ dq ++ ">"
   ++ nl ++ spaces 24 ++ "Edit"
   ++ nl ++ spaces 20 ++ "</button>"
   ++ nl ++ spaces 20 ++ "<button" ++ cls "btn btn-danger btn-small"
      ++ " onclick=" ++ dq ++ "contactManager.confirmDelete("
      ++ numberToString h (id contact) ++ ")" ++ dq ++ ">"
   ++ nl ++ spaces 24 ++ "Delete"
   ++ nl ++ spaces 20 ++ "</button>"
   ++ nl ++ spaces 16 ++ "</div>"
   ++ nl ++ spaces 12 ++ "</div>"
   ++ nl ++ spaces 8)%string.

(** [this.filteredContacts.map(...).join('')]. *)
Definition cards (h : Host) (l : list Contact) : string :=
  String.concat "" (map (card h) l).

Definition renderContacts (h : Host) (m : ContactManager) (p : Page) : Page :=
  match container p, emptyState p with
  | Some _, Some _ =>
      if (List.length (filteredContacts m) =? 0)%nat
      then set_view p "" "block"
      else set_view p (cards h (filteredContacts m)) "none"
  | _, _ => console_error p "Contacts container or empty state element not found"
  end.

Definition updateStats (m : ContactManager) (p : Page) : Page :=
  match contactCount p with
  | Some _ => set_contactCount p (length_toString (List.length (contacts m)))
  | None => p
  end.

Definition render (h : Host) (m : ContactManager) (p : Page) : Page :=
  updateStats m (renderContacts h m p).

(** [new ContactManager()] on a loaded document: [loadContacts], then
    [render].  ([bindEvents] only registers handlers.) *)
Definition init (h : Host) (clock : nat -> Clock)
    (slot : option (list StoredContact)) (p : Page) : App :=
  let m := init clock slot in
  {| manager := m; page := render h m p |}.

Definition addContact (h : Host) (k : Clock) (contactData : ContactFormData)
    (a : App) : Contact * App :=
  let (contact, m) := addContact k contactData (manager a) in
  (contact, {| manager := m; page := render h m (page a) |}).

(** [render] is called in the branch that found the record only. *)
Definition updateContact (h : Host) (i : JS.number) (contactData : PartialFormData)
    (a : App) : option Contact * App :=
  match updateContact i contactData (manager a) with
  | (Some contact, m) =>
      (Some contact, {| manager := m; page := render h m (page a) |})
  | (None, m) => (None, {| manager := m; page := page a |})
  end.

Definition deleteContact (h : Host) (i : JS.number) (a : App) : bool * App :=
  match deleteContact i (manager a) with
  | (true, m) => (true, {| manager := m; page := render h m (page a) |})
  | (false, m) => (false, {| manager := m; page := page a |})
  end.

Definition searchContacts (h : Host) (query : string) (a : App) : App :=
  let m := searchContacts query (manager a) in
  {| manager := m; page := renderContacts h m (page a) |}.

Definition resetForm (a : App) : App :=
  {| manager := manager a; page := set_inputs (page a) (defaults (page a)) |}.

Definition closeModal (a : App) : App :=
  let a := {| manager := manager a; page := set_modalDisplay (page a) "none" |} in
  let a := {| manager := set_currentEditId (manager a) None; page := page a |} in
  resetForm a.

Definition openAddModal (a : App) : App :=
  let a := {| manager := manager a;
              page := set_modalTitle (page a) "Add New Contact" |} in
  let a := {| manager := manager a; page := set_modalDisplay (page a) "flex" |} in
  let a := {| manager := set_currentEditId (manager a) None; page := page a |} in
  resetForm a.

Definition openEditModal (h : Host) (i : JS.number) (a : App) : App :=
  match find (has_id i) (contacts (manager a)) with
  | None => a
  | Some contact =>
      let p := set_modalTitle (page a) "Edit Contact" in
      let p := set_inputs p (held h (fieldsOf contact)) in
      let m := set_currentEditId (manager a) (Some i) in
      {| manager := m; page := set_modalDisplay p "flex" |}
  end.

(** The form data [saveContact] reads: the six inputs, trimmed. *)
Definition readForm (p : Page) : ContactFormData :=
  {| form_firstName := JS.trim (val_firstName (inputs p));
     form_lastName := JS.trim (val_lastName (inputs p));
     form_userName := JS.trim (val_userName (inputs p));
     form_phone := JS.trim (val_phone (inputs p));
     form_email := Some (JS.trim (val_email (inputs p)));
     form_address := Some (JS.trim (val_address (inputs p))) |}.

Definition requiredMessage : string :=
  "Please fill in all required fields (First Name, Last Name, User Name, Phone)".

(** [k] is the clock a [new Contact] reads, if one is made. *)
Definition saveContact (h : Host) (k : Clock) (a : App) : App :=
  let formData := readForm (page a) in
  if negb (JS.truthy (form_firstName formData))
     || negb (JS.truthy (form_lastName formData))
     || negb (JS.truthy (form_userName formData))
     || negb (JS.truthy (form_phone formData))
  then {| manager := manager a; page := alert (page a) requiredMessage |}
  else
    let a :=
      match currentEditId (manager a) with
      | Some i =>
          if truthy_number i then
            let a := snd (updateContact h i (asPartial formData) a) in
            {| manager := set_currentEditId (manager a) None; page := page a |}
          else snd (addContact h k formData a)
      | None => snd (addContact h k formData a)
      end in
    let a := closeModal a in
    resetForm a.

Definition confirmMessage (contact : Contact) : string :=
  ("Are you sure you want to delete " ++ getFullName contact ++ "?")%string.

(** [answer] is what the user answers if [confirm] is called. *)
Definition confirmDelete (h : Host) (answer : bool) (i : JS.number) (a : App) : App :=
  match find (has_id i) (contacts (manager a)) with
  | Some contact =>
      let a := {| manager := manager a;
                  page := confirm (page a) (confirmMessage contact) |} in
      if answer then snd (deleteContact h i a) else a
  | None => a
  end.

(** One thing that happens to the page: a handler runs, or the user
    types into the form. *)
Inductive Action : Set :=
| DoAdd (k : Clock) (contactData : ContactFormData)
| DoUpdate (i : JS.number) (contactData : PartialFormData)
| DoDelete (i : JS.number)
| DoSearch (query : string)
| DoSave (k : Clock)
| DoOpenAdd
| DoOpenEdit (i : JS.number)
| DoClose
| DoConfirmDelete (answer : bool) (i : JS.number)
| DoFill (values : FormValues).

Definition act (h : Host) (x : Action) (a : App) : App :=
  match x with
  | DoAdd k contactData => snd (addContact h k contactData a)
  | DoUpdate i contactData => snd (updateContact h i contactData a)
  | DoDelete i => snd (deleteContact h i a)
  | DoSearch query => searchContacts h query a
  | DoSave k => saveContact h k a
  | DoOpenAdd => openAddModal a
  | DoOpenEdit i => openEditModal h i a
  | DoClose => closeModal a
  | DoConfirmDelete answer i => confirmDelete h answer i a
  | DoFill values => {| manager := manager a; page := set_inputs (page a) values |}
  end.

Definition run (h : Host) (actions : list Action) (a : App) : App :=
  fold_left (fun a x => act h x a) actions a.

End UI.

(** The page shows the manager's state: the container holds the cards of
    the filtered view and the empty-state element is shown exactly when
    there are none; the counter holds the number of all contacts.  Each
    part is asked of the elements that exist. *)
Definition shows (h : Host) (a : App) : Prop :=
  (container (page a) <> None -> emptyState (page a) <> None ->
   container (page a) = Some (UI.cards h (filteredContacts (manager a)))
   /\ emptyState (page a)
      = Some (match filteredContacts (manager a) with
              | [] => "block"
              | _ :: _ => "none"
              end))
  /\ (contactCount (page a) <> None ->
      contactCount (page a)
      = Some (length_toString (List.length (contacts (manager a))))).

(** The four required fields are not empty and all six fields are
    trimmed: the records [saveContact] makes. *)
Definition well_formed (c : Contact) : Prop :=
  firstName c <> "" /\ lastName c <> "" /\ userName c <> "" /\ phone c <> ""
  /\ trimmed (firstName c) /\ trimmed (lastName c) /\ trimmed (userName c)
  /\ trimmed (phone c) /\ trimmed (email c) /\ trimmed (address c).

(** The four required inputs hold more than white space. *)
Definition filled_in (p : Page) : Prop :=
  blank (val_firstName (inputs p)) = false
  /\ blank (val_lastName (inputs p)) = false
  /\ blank (val_userName (inputs p)) = false
  /\ blank (val_phone (inputs p)) = false.

(** The handlers the page calls on the user's behalf; [addContact],
    [updateContact] and [deleteContact] are called by these only. *)
Definition from_page (x : UI.Action) : bool :=
  match x with
  | UI.DoAdd _ _ | UI.DoUpdate _ _ | UI.DoDelete _ => false
  | _ => true
  end.

(** No edit is under way, as far as [saveContact] can tell. *)
Definition not_editing (m : ContactManager) : Prop :=
  match currentEditId m with
  | None => True
  | Some i => truthy_number i = false
  end.

Module Demo.

Definition host : Host :=
  {| numberToString := fun _ => "1700000000000.5";
     icon_user := "U"; icon_phone := "P"; icon_mail := "M"; icon_pin := "A";
     held := textInputs |}.

Definition noValues : FormValues :=
  {| val_firstName := ""; val_lastName := ""; val_userName := "";
     val_phone := ""; val_email := ""; val_address := "" |}.

Definition blankPage : Page :=
  {| inputs := noValues; defaults := noValues; modalTitle := "";
     modalDisplay := "none"; alerts := []; prompts := [];
     container := Some ""; emptyState := Some "none";
     contactCount := Some "0"; errors := [] |}.

(** A first visit. *)
Definition start : App := UI.init host (fun _ => Sample.clock1) None blankPage.

Definition typedBob : FormValues :=
  {| val_firstName := "  Bob "; val_lastName := "Smith"; val_userName := "bsmith";
     val_phone := " 555-9999"; val_email := "  "; val_address := "" |}.

Definition typedNoPhone : FormValues :=
  {| val_firstName := "Bob"; val_lastName := "Smith"; val_userName := "bsmith";
     val_phone := "   "; val_email := "bob@example.org"; val_address := "" |}.

Definition typedJane : FormValues :=
  {| val_firstName := "Jane"; val_lastName := "Doe"; val_userName := "jdoe";
     val_phone := "555-1234"; val_email := "jane@example.org"; val_address := "" |}.

(** Jane, added through the form. *)
Definition withJane : App :=
  UI.run host [UI.DoOpenAdd; UI.DoFill typedJane; UI.DoSave Sample.clock1] start.

Definition typedDoer : FormValues :=
  {| val_firstName := "Jane"; val_lastName := " Doer"; val_userName := "jdoe";
     val_phone := "555-1234"; val_email := ""; val_address := "12 Elm Row " |}.

Definition janeRecord : Contact :=
  fst (addContact Sample.clock1 (UI.readForm (set_inputs blankPage typedJane)) emptyStore).

(** Jane is open for edit and the form has been changed. *)
Definition editingJane : App :=
  UI.run host [UI.DoOpenEdit Sample.janeId; UI.DoFill typedDoer] withJane.

(** Jane is open for edit, and is deleted before the save. *)
Definition staleEdit : App :=
  UI.run host
    [UI.DoOpenEdit Sample.janeId; UI.DoConfirmDelete true Sample.janeId;
     UI.DoFill typedDoer]
    withJane.

Definition typedMarkup : FormValues :=
  {| val_firstName := "<b>Jane</b>"; val_lastName := "<i>Doe</i>";
     val_userName := "<u>jdoe"; val_phone := "555&1234";
     val_email := ""; val_address := "" |}.

(** A record whose fields hold markup, added through the form. *)
Definition withMarkup : App :=
  UI.run host [UI.DoOpenAdd; UI.DoFill typedMarkup; UI.DoSave Sample.clock1] start.

Definition markupRecord : Contact :=
  fst (addContact Sample.clock1 (UI.readForm (set_inputs blankPage typedMarkup))
         emptyStore).

(** A session at the page. *)
Definition session : list UI.Action :=
  [UI.DoOpenAdd; UI.DoFill typedJane; UI.DoSave Sample.clock1;
   UI.DoOpenAdd; UI.DoFill typedBob; UI.DoSave Sample.clock3;
   UI.DoSearch "smith"; UI.DoOpenEdit Sample.janeId; UI.DoFill typedDoer;
   UI.DoSave Sample.clock2; UI.DoConfirmDelete false Sample.bobId;
   UI.DoConfirmDelete true Sample.bobId; UI.DoClose].

End Demo.

(** * Proofs *)

(** ** Strings *)

Section Strings.

Lemma truthy_false_iff (s : string) : JS.truthy s = false <-> s = "".
Proof. destruct s; simpl; split; congruence. Qed.

Lemma truthy_true_iff (s : string) : JS.truthy s = true <-> s <> "".
Proof. destruct s; simpl; split; congruence. Qed.

Lemma or_else_merged (incoming : option string) (old : string) :
  merged incoming old (JS.or_else incoming old).
Proof.
  split.
  - intros v -> Hv. simpl. destruct v; [contradiction | reflexivity].
  - intros [-> | ->]; reflexivity.
Qed.

Lemma prefix_occurs (t s : string) :
  String.prefix t s = true <-> exists b, s = (t ++ b)%string.
Proof.
  revert s. induction t as [| c t IH]; intros s; simpl.
  - split; [intros _; exists s; reflexivity | destruct s; reflexivity].
  - destruct s as [| d s]; simpl.
    + split; [discriminate | intros [b Hb]; discriminate].
    + destruct (Ascii.ascii_dec c d) as [-> | Hcd].
      * rewrite IH. split; intros [b Hb]; exists b; congruence.
      * split; [discriminate | intros [b Hb]; congruence].
Qed.

Lemma includes_occurs (s t : string) :
  JS.includes s t = true <-> occurs_in t s.
Proof.
  induction s as [| c s IH]; cbn [JS.includes].
  - destruct (String.prefix t "") eqn:Hp.
    + split; [intros _ | reflexivity].
      apply prefix_occurs in Hp. destruct Hp as [b Hb].
      exists "", b. exact Hb.
    + split; [discriminate |].
      intros [a [b Hab]]. destruct a; simpl in Hab; [| discriminate].
      assert (String.prefix t "" = true) by (apply prefix_occurs; eauto).
      congruence.
  - destruct (String.prefix t (String c s)) eqn:Hp.
    + split; [intros _ | reflexivity].
      apply prefix_occurs in Hp. destruct Hp as [b Hb].
      exists "", b. exact Hb.
    + rewrite IH. split.
      * intros [a [b Hab]]. exists (String c a), b. simpl. congruence.
      * intros [a [b Hab]]. destruct a as [| d a]; simpl in Hab.
        -- assert (String.prefix t (String c s) = true)
             by (apply prefix_occurs; eauto).
           congruence.
        -- exists a, b. congruence.
Qed.

Lemma trimStart_blank (s : string) : JS.trimStart s = "" <-> blank s = true.
Proof.
  induction s as [| c s IH]; simpl.
  - split; reflexivity.
  - destruct (JS.isWhiteSpace c); simpl; [exact IH |].
    split; discriminate.
Qed.

Lemma trimStart_head (s : string) (c : ascii) (r : string) :
  JS.trimStart s = String c r -> JS.isWhiteSpace c = false.
Proof.
  induction s as [| d s IH]; simpl; [discriminate |].
  destruct (JS.isWhiteSpace d) eqn:Hd; [exact IH |].
  intros H. congruence.
Qed.

Lemma trimEnd_blank (s : string) : JS.trimEnd s = "" <-> blank s = true.
Proof.
  induction s as [| c s IH]; simpl.
  - split; reflexivity.
  - destruct (JS.trimEnd s) as [| d r].
    + destruct (JS.isWhiteSpace c); simpl.
      * split; [intros _; apply IH; reflexivity | reflexivity].
      * split; discriminate.
    + split; [discriminate |].
      intros H. apply andb_true_iff in H. destruct H as [_ H].
      apply IH in H. discriminate.
Qed.

(** [!query.trim()] holds exactly for a blank query. *)
Lemma trim_falsy_iff (query : string) :
  negb (JS.truthy (JS.trim query)) = blank query.
Proof.
  unfold JS.trim.
  destruct (blank query) eqn:Hb.
  - apply trimStart_blank in Hb. rewrite Hb. reflexivity.
  - destruct (JS.trimStart query) as [| c r] eqn:Hs.
    + apply trimStart_blank in Hs. congruence.
    + pose proof (trimStart_head _ _ _ Hs) as Hc.
      destruct (JS.trimEnd (String c r)) eqn:He; [| reflexivity].
      apply trimEnd_blank in He. simpl in He. rewrite Hc in He. discriminate.
Qed.

Lemma toLowerCase_empty (s : string) : JS.toLowerCase s = "" -> s = "".
Proof. destruct s; simpl; [reflexivity | discriminate]. Qed.

Lemma blank_false_nonempty (s : string) : blank s = false -> s <> "".
Proof. intros H ->. discriminate. Qed.

Lemma toUpperCase_app (a b : string) :
  JS.toUpperCase (a ++ b) = JS.toUpperCase a ++ JS.toUpperCase b.
Proof.
  induction a as [| c a IH]; simpl; [reflexivity |].
  now rewrite IH, app_assoc.
Qed.

Lemma charAt0_length (s : string) : (String.length (JS.charAt 0 s) <= 1)%nat.
Proof. destruct s; simpl; lia. Qed.

Lemma upper_units_length (c : ascii) :
  (1 <= List.length (JS.upper_units c) <= 2)%nat.
Proof. destruct c as [[] [] [] [] [] [] [] []]; vm_compute; lia. Qed.

Lemma length_append (a b : string) :
  String.length (a ++ b) = (String.length a + String.length b)%nat.
Proof. induction a; simpl; congruence. Qed.

End Strings.

(** ** Numbers: [===] is symmetric and transitive *)

Section Numbers.

Lemma SFeqb_same_value (a b : spec_float) :
  SFeqb a b = true <-> JS.same_value a b.
Proof.
  unfold SFeqb.
  destruct a as [s1 | s1 | | s1 m1 e1], b as [s2 | s2 | | s2 m2 e2]; simpl;
    try (destruct s1); try (destruct s2); simpl;
    try (split; [discriminate | contradiction]);
    try (split; [discriminate | discriminate]);
    try (split; reflexivity);
    try (split; [discriminate | intros (H & _); discriminate]).
  all: destruct (Z.compare_spec e1 e2) as [-> | Hlt | Hgt];
    try (split; [discriminate | intros (_ & _ & H); lia]);
    change (Pos.compare_cont Eq m1 m2) with (Pos.compare m1 m2);
    destruct (Pos.compare_spec m1 m2) as [-> | Hm | Hm]; simpl;
    try (split; [discriminate | intros (_ & H & _); lia]);
    split; auto.
Qed.

Lemma same_value_sym (a b : spec_float) :
  JS.same_value a b -> JS.same_value b a.
Proof. destruct a, b; simpl; intuition congruence. Qed.

Lemma same_value_trans (a b c : spec_float) :
  JS.same_value a b -> JS.same_value b c -> JS.same_value a c.
Proof. destruct a, b, c; simpl; intuition congruence. Qed.

Lemma strict_eq_sym (x y : JS.number) :
  JS.strict_eq x y = true -> JS.strict_eq y x = true.
Proof.
  unfold JS.strict_eq. rewrite !FloatAxioms.eqb_spec, !SFeqb_same_value.
  apply same_value_sym.
Qed.

Lemma strict_eq_trans (x y z : JS.number) :
  JS.strict_eq x y = true -> JS.strict_eq y z = true -> JS.strict_eq x z = true.
Proof.
  unfold JS.strict_eq. rewrite !FloatAxioms.eqb_spec, !SFeqb_same_value.
  apply same_value_trans.
Qed.

(** Of two numbers equal to a third, neither differs from the other. *)
Lemma strict_eq_common (x y z : JS.number) :
  JS.strict_eq x z = true -> JS.strict_eq x y = false -> JS.strict_eq y z = false.
Proof.
  intros Hxz Hxy. destruct (JS.strict_eq y z) eqn:Hyz; [| reflexivity].
  apply strict_eq_sym in Hyz.
  rewrite (strict_eq_trans x z y Hxz Hyz) in Hxy. discriminate.
Qed.

End Numbers.

(** ** Arrays: the first element satisfying a predicate *)

Section Arrays.

Context {A : Type} (p : A -> bool).

Lemma none_of_in (l : list A) :
  (forall x, In x l -> p x = false) -> none_of p l.
Proof. intros H. apply Forall_forall. exact H. Qed.

Lemma first_or_none (l : list A) :
  none_of p l \/
  exists before c after,
    l = before ++ c :: after /\ none_of p before /\ p c = true.
Proof.
  induction l as [| a l IH].
  - left. constructor.
  - destruct (p a) eqn:Ha.
    + right. exists [], a, l. repeat split; [constructor | exact Ha].
    + destruct IH as [Hn | (before & c & after & -> & Hb & Hc)].
      * left. constructor; assumption.
      * right. exists (a :: before), c, after.
        repeat split; [constructor; assumption | exact Hc].
Qed.

Lemma first_split (l : list A) :
  (exists c, In c l /\ p c = true) ->
  exists before c after,
    l = before ++ c :: after /\ none_of p before /\ p c = true.
Proof.
  intros (c & Hin & Hc).
  destruct (first_or_none l) as [Hn | H]; [| exact H].
  unfold none_of in Hn. rewrite Forall_forall in Hn.
  specialize (Hn c Hin). congruence.
Qed.

Lemma find_split (before : list A) (c : A) (after : list A) :
  none_of p before -> p c = true -> find p (before ++ c :: after) = Some c.
Proof.
  intros Hb Hc. induction Hb as [| x before Hx _ IH]; simpl.
  - now rewrite Hc.
  - now rewrite Hx.
Qed.

Lemma find_none_of (l : list A) : none_of p l -> find p l = None.
Proof.
  intros Hl. induction Hl as [| x l Hx _ IH]; simpl; [reflexivity |].
  now rewrite Hx.
Qed.

Lemma findIndex_from_split (before : list A) (c : A) (after : list A) (i : Z) :
  none_of p before -> p c = true ->
  JS.findIndex_from p (before ++ c :: after) i = (i + Z.of_nat (List.length before))%Z.
Proof.
  intros Hb Hc. revert i.
  induction Hb as [| x before Hx _ IH]; intros i; simpl List.length; simpl.
  - rewrite Hc. lia.
  - rewrite Hx, IH. lia.
Qed.

Lemma findIndex_from_none_of (l : list A) (i : Z) :
  none_of p l -> JS.findIndex_from p l i = (-1)%Z.
Proof.
  intros Hl. revert i.
  induction Hl as [| x l Hx _ IH]; intros i; simpl; [reflexivity |].
  now rewrite Hx.
Qed.

Lemma firstn_length_app (before rest : list A) :
  firstn (List.length before) (before ++ rest) = before.
Proof. induction before; simpl; congruence. Qed.

Lemma skipn_length_app (before rest : list A) :
  skipn (List.length before) (before ++ rest) = rest.
Proof. induction before; simpl; congruence. Qed.

Lemma splice1_split (before : list A) (c : A) (after : list A) :
  JS.splice1 (Z.of_nat (List.length before)) (before ++ c :: after) = before ++ after.
Proof.
  unfold JS.splice1.
  destruct (Z.ltb_spec (Z.of_nat (List.length before)) 0) as [Hneg | _]; [lia |].
  rewrite Z.min_l by (rewrite length_app; simpl; lia).
  rewrite Nat2Z.id, firstn_length_app.
  change (S (List.length before)) with (1 + List.length before)%nat.
  rewrite <- skipn_skipn, skipn_length_app. reflexivity.
Qed.

Lemma mutate_first_split (f : A -> A) (before : list A) (c : A) (after : list A) :
  none_of p before -> p c = true ->
  mutate_first p f (before ++ c :: after) = before ++ f c :: after.
Proof.
  intros Hb Hc. induction Hb as [| x before Hx _ IH]; simpl.
  - now rewrite Hc.
  - now rewrite Hx, IH.
Qed.

Lemma mutate_first_none_of (f : A -> A) (l : list A) :
  none_of p l -> mutate_first p f l = l.
Proof.
  intros Hl. induction Hl as [| x l Hx _ IH]; simpl; [reflexivity |].
  now rewrite Hx, IH.
Qed.

End Arrays.

(** ** Arrays: a relation on every ordered pair *)

Section OrderedPairs.

Context {A : Type} (R : A -> A -> Prop).

Lemma ordered_pairs_snoc (l : list A) (y : A) :
  ForallOrdPairs R l -> Forall (fun x => R x y) l -> ForallOrdPairs R (l ++ [y]).
Proof.
  intros Hl Hy. induction Hl as [| a l Ha Hl IH]; simpl.
  - repeat constructor.
  - inversion Hy as [| ? ? Hay Hy']; subst.
    constructor; [| now apply IH].
    apply Forall_app. split; [exact Ha | now constructor].
Qed.

Lemma ordered_pairs_remove (before : list A) (x : A) (after : list A) :
  ForallOrdPairs R (before ++ x :: after) -> ForallOrdPairs R (before ++ after).
Proof.
  induction before as [| a before IH]; simpl; intros H.
  - now inversion H.
  - inversion H as [| ? ? Ha Hr]; subst.
    constructor; [| now apply IH].
    apply Forall_app in Ha. destruct Ha as [Ha1 Ha2].
    inversion Ha2; subst. apply Forall_app. now split.
Qed.

Lemma ordered_pairs_after (before : list A) (x : A) (after : list A) :
  ForallOrdPairs R (before ++ x :: after) -> Forall (R x) after.
Proof.
  induction before as [| a before IH]; simpl; intros H.
  - now inversion H.
  - inversion H; subst. now apply IH.
Qed.

End OrderedPairs.

(** ** What each method does to the store *)

Section Methods.

Variable s : ContactManager.
Variable i : JS.number.

Lemma updateContact_missing (data : PartialFormData) :
  none_of (has_id i) (contacts s) -> updateContact i data s = (None, s).
Proof.
  intros Hn. unfold updateContact.
  now rewrite (find_none_of (has_id i) _ Hn).
Qed.

Lemma updateContact_found (data : PartialFormData)
    (before : list Contact) (c : Contact) (after : list Contact) :
  contacts s = before ++ c :: after -> none_of (has_id i) before -> has_id i c = true ->
  updateContact i data s =
    (Some (update c data),
     {| contacts := before ++ update c data :: after;
        currentEditId := currentEditId s;
        filteredContacts := before ++ update c data :: after;
        localStorage := Some (JSON.stringify (before ++ update c data :: after)) |}).
Proof.
  intros Hs Hb Hc. unfold updateContact.
  rewrite Hs, (find_split (has_id i) before c after Hb Hc).
  rewrite (mutate_first_split (has_id i) _ before c after Hb Hc).
  reflexivity.
Qed.

Lemma deleteContact_missing :
  none_of (has_id i) (contacts s) -> deleteContact i s = (false, s).
Proof.
  intros Hn. unfold deleteContact, JS.findIndex.
  now rewrite (findIndex_from_none_of (has_id i) _ 0 Hn).
Qed.

Lemma deleteContact_found
    (before : list Contact) (c : Contact) (after : list Contact) :
  contacts s = before ++ c :: after -> none_of (has_id i) before -> has_id i c = true ->
  deleteContact i s =
    (true,
     {| contacts := before ++ after;
        currentEditId := currentEditId s;
        filteredContacts := before ++ after;
        localStorage := Some (JSON.stringify (before ++ after)) |}).
Proof.
  intros Hs Hb Hc. unfold deleteContact, JS.findIndex.
  rewrite Hs, (findIndex_from_split (has_id i) before c after 0 Hb Hc).
  rewrite Z.add_0_l.
  destruct (Z.eqb_spec (Z.of_nat (List.length before)) (-1)) as [Hneg | _]; [lia |].
  simpl negb. cbv iota.
  rewrite (splice1_split before c after). reflexivity.
Qed.

End Methods.

Lemma addContact_spec (k : Clock) (data : ContactFormData) (s : ContactManager) :
  addContact k data s =
    (let c := newContact k (form_firstName data) (form_lastName data)
                (form_userName data) (form_phone data)
                (Some (JS.or_else (form_email data) ""))
                (Some (JS.or_else (form_address data) "")) in
     (c,
      {| contacts := contacts s ++ [c];
         currentEditId := currentEditId s;
         filteredContacts := contacts s ++ [c];
         localStorage := Some (JSON.stringify (contacts s ++ [c])) |})).
Proof. reflexivity. Qed.

Lemma find_some_split {A : Type} (p : A -> bool) (l : list A) (c : A) :
  find p l = Some c ->
  exists before after, l = before ++ c :: after /\ none_of p before /\ p c = true.
Proof.
  intros Hf.
  destruct (first_or_none p l) as [Hn | (before & c' & after & Hl & Hb & Hc)].
  - rewrite (find_none_of p l Hn) in Hf. discriminate.
  - subst l. rewrite (find_split p before c' after Hb Hc) in Hf.
    injection Hf as <-. exists before, after. auto.
Qed.

Lemma nth_error_one_changed {A : Type} (before after : list A) (c c' : A) (n : nat) :
  nth_error (before ++ c' :: after) n = nth_error (before ++ c :: after) n
  \/ (nth_error (before ++ c :: after) n = Some c
      /\ nth_error (before ++ c' :: after) n = Some c').
Proof.
  destruct (Nat.lt_trichotomy n (List.length before)) as [Hlt | [-> | Hgt]].
  - left. now rewrite !nth_error_app1 by assumption.
  - right. rewrite !nth_error_app2 by lia. rewrite Nat.sub_diag. auto.
  - left. rewrite !nth_error_app2 by lia.
    destruct (n - List.length before)%nat eqn:Hd; [lia | reflexivity].
Qed.

(** ** The record *)

(** C1.  [Contact.update] merges by truthiness: each of the six fields
    takes the incoming value when that is a non-empty string and keeps
    its value when the incoming one is absent or the empty string.  In
    particular [updateContact(id, {firstName: "", lastName: "Doer"})] on
    a record whose first name is "Jane" leaves the first name "Jane" and
    makes the last name "Doer". *)
Theorem update_merges_by_truthiness :
  (forall (c : Contact) (data : PartialFormData),
      merged (part_firstName data) (firstName c) (firstName (update c data))
      /\ merged (part_lastName data) (lastName c) (lastName (update c data))
      /\ merged (part_userName data) (userName c) (userName (update c data))
      /\ merged (part_phone data) (phone c) (phone (update c data))
      /\ merged (part_email data) (email c) (email (update c data))
      /\ merged (part_address data) (address c) (address (update c data)))
  /\ (forall (s : ContactManager) (i : JS.number) (c : Contact),
         find (has_id i) (contacts s) = Some c ->
         firstName c = "Jane" ->
         exists c',
           fst (updateContact i Sample.doer s) = Some c'
           /\ In c' (contacts (snd (updateContact i Sample.doer s)))
           /\ firstName c' = "Jane"
           /\ lastName c' = "Doer").
Proof.
  split.
  - intros c data. unfold update; simpl. repeat split; apply or_else_merged.
  - intros s i c Hf Hjane.
    destruct (find_some_split _ _ _ Hf) as (before & after & Hs & Hb & Hc).
    rewrite (updateContact_found s i Sample.doer before c after Hs Hb Hc).
    exists (update c Sample.doer). simpl.
    repeat split; [apply in_elt | exact Hjane].
Qed.

(** With the form data [saveContact] lets through (the four required
    fields not empty), an update replaces those four fields. *)
Lemma update_validated (c : Contact) (d : ContactFormData) :
  form_firstName d <> "" -> form_lastName d <> "" ->
  form_userName d <> "" -> form_phone d <> "" ->
  firstName (update c (asPartial d)) = form_firstName d
  /\ lastName (update c (asPartial d)) = form_lastName d
  /\ userName (update c (asPartial d)) = form_userName d
  /\ phone (update c (asPartial d)) = form_phone d
  /\ email (update c (asPartial d)) = JS.or_else (form_email d) (email c)
  /\ address (update c (asPartial d)) = JS.or_else (form_address d) (address c).
Proof.
  intros H1 H2 H3 H4. unfold update, asPartial; simpl.
  apply truthy_true_iff in H1, H2, H3, H4.
  rewrite H1, H2, H3, H4. repeat split.
Qed.

Lemma update_merges_by_truthiness_witness :
  exists c',
    fst (updateContact Sample.janeId Sample.doer Sample.two) = Some c'
    /\ In c' (contacts (snd (updateContact Sample.janeId Sample.doer Sample.two)))
    /\ firstName c' = "Jane"
    /\ lastName c' = "Doer".
Proof.
  apply (proj2 update_merges_by_truthiness Sample.two Sample.janeId
           (fst (addContact Sample.clock1 Sample.jane emptyStore)));
    reflexivity.
Defined.

Lemma upper_units_small (a : ascii) :
  (97 <= N_of_ascii a <= 122)%N
  \/ ((224 <= N_of_ascii a <= 254)%N /\ N_of_ascii a <> 247%N) ->
  JS.upper_units a = [(N_of_ascii a - 32)%N].
Proof.
  intros H. unfold JS.upper_units. cbv zeta.
  replace (((97 <=? N_of_ascii a)%N && (N_of_ascii a <=? 122)%N)
           || ((224 <=? N_of_ascii a)%N && (N_of_ascii a <=? 254)%N
               && negb (N_of_ascii a =? 247)%N)) with true; [reflexivity |].
  symmetry. rewrite orb_true_iff, !andb_true_iff, negb_true_iff, !N.leb_le, N.eqb_neq.
  destruct H as [H | [H1 H2]]; [left | right]; repeat split; try lia; exact H2.
Qed.

Lemma upper_units_other (a : ascii) :
  ~ (97 <= N_of_ascii a <= 122)%N ->
  ~ ((224 <= N_of_ascii a <= 254)%N /\ N_of_ascii a <> 247%N) ->
  N_of_ascii a <> 223%N -> N_of_ascii a <> 181%N -> N_of_ascii a <> 255%N ->
  JS.upper_units a = [N_of_ascii a].
Proof.
  intros H1 H2 H3 H4 H5. unfold JS.upper_units. cbv zeta.
  replace (((97 <=? N_of_ascii a)%N && (N_of_ascii a <=? 122)%N)
           || ((224 <=? N_of_ascii a)%N && (N_of_ascii a <=? 254)%N
               && negb (N_of_ascii a =? 247)%N)) with false.
  - apply N.eqb_neq in H3, H4, H5. now rewrite H3, H4, H5.
  - symmetry. apply not_true_is_false. intros H.
    rewrite orb_true_iff, !andb_true_iff, negb_true_iff, !N.leb_le, N.eqb_neq in H.
    destruct H as [H | [H H']]; [apply H1 | apply H2]; tauto.
Qed.

(** C9.  [getInitials] is the uppercased first character of the first
    name followed by the uppercased first character of the last name; it
    is defined for every record, an empty name giving no character; for
    "Jane" "Doe" it is "JD".  Uppercasing is that of [toUpperCase] on the
    units below 256: a small letter gives its capital, sharp s gives SS,
    the micro sign and y with diaeresis give their capitals above 255,
    any other unit gives itself. *)
Theorem getInitials_total (c : Contact) :
  getInitials c
  = JS.toUpperCase (JS.charAt 0 (firstName c))
    ++ JS.toUpperCase (JS.charAt 0 (lastName c))
  /\ (forall a r, firstName c = String a r ->
        JS.toUpperCase (JS.charAt 0 (firstName c)) = JS.upper_units a)
  /\ (forall b r, lastName c = String b r ->
        JS.toUpperCase (JS.charAt 0 (lastName c)) = JS.upper_units b)
  /\ (firstName c = "" -> JS.toUpperCase (JS.charAt 0 (firstName c)) = [])
  /\ (lastName c = "" -> JS.toUpperCase (JS.charAt 0 (lastName c)) = [])
  /\ (forall a,
        (97 <= N_of_ascii a <= 122)%N
        \/ ((224 <= N_of_ascii a <= 254)%N /\ N_of_ascii a <> 247%N) ->
        JS.upper_units a = [(N_of_ascii a - 32)%N])
  /\ (forall a, N_of_ascii a = 223%N -> JS.upper_units a = [83%N; 83%N])
  /\ (forall a, N_of_ascii a = 181%N -> JS.upper_units a = [924%N])
  /\ (forall a, N_of_ascii a = 255%N -> JS.upper_units a = [376%N])
  /\ (forall a,
        ~ (97 <= N_of_ascii a <= 122)%N ->
        ~ ((224 <= N_of_ascii a <= 254)%N /\ N_of_ascii a <> 247%N) ->
        N_of_ascii a <> 223%N -> N_of_ascii a <> 181%N -> N_of_ascii a <> 255%N ->
        JS.upper_units a = [N_of_ascii a])
  /\ (firstName c = "Jane" -> lastName c = "Doe" -> getInitials c = JS.widen "JD")
  /\ (firstName c = "jane" -> lastName c = "doe" -> getInitials c = JS.widen "JD").
Proof.
  unfold getInitials. rewrite toUpperCase_app.
  split; [reflexivity |].
  split; [intros a r ->; apply app_nil_r |].
  split; [intros b r ->; apply app_nil_r |].
  split; [intros ->; reflexivity |].
  split; [intros ->; reflexivity |].
  split; [exact upper_units_small |].
  split; [intros a H; unfold JS.upper_units; rewrite H; reflexivity |].
  split; [intros a H; unfold JS.upper_units; rewrite H; reflexivity |].
  split; [intros a H; unfold JS.upper_units; rewrite H; reflexivity |].
  split; [exact upper_units_other |].
  split; intros -> ->; reflexivity.
Qed.

(** ** The store: update and delete *)

(** C3.  When no record of [contacts] has the given id, [updateContact]
    returns null and [deleteContact] returns false, and both leave the
    whole state ([contacts], [filteredContacts], the persisted snapshot)
    as it was. *)
Theorem unknown_id_no_effect
    (s : ContactManager) (i : JS.number) (data : PartialFormData) :
  (forall c, In c (contacts s) -> JS.strict_eq (id c) i = false) ->
  updateContact i data s = (None, s) /\ deleteContact i s = (false, s).
Proof.
  intros H. apply (none_of_in (has_id i)) in H.
  split; [now apply updateContact_missing | now apply deleteContact_missing].
Qed.

Lemma unknown_id_no_effect_witness :
  updateContact 3%float Sample.doer Sample.two = (None, Sample.two)
  /\ deleteContact 3%float Sample.two = (false, Sample.two).
Proof.
  apply (unknown_id_no_effect Sample.two 3%float Sample.doer).
  intros c Hc. vm_compute in Hc.
  destruct Hc as [<- | [<- | []]]; vm_compute; reflexivity.
Defined.

(** C6.  [updateContact] leaves the id and the creation date of every
    record as they were, and neither reorders, adds nor removes a record:
    at each position the record is the old one, or the old one updated. *)
Theorem update_keeps_identity_and_order :
  (forall (c : Contact) (data : PartialFormData),
      id (update c data) = id c /\ createdAt (update c data) = createdAt c)
  /\ (forall (s : ContactManager) (i : JS.number) (data : PartialFormData),
         map id (contacts (snd (updateContact i data s))) = map id (contacts s)
         /\ map createdAt (contacts (snd (updateContact i data s)))
            = map createdAt (contacts s)
         /\ List.length (contacts (snd (updateContact i data s)))
            = List.length (contacts s)
         /\ forall n,
             nth_error (contacts (snd (updateContact i data s))) n
             = nth_error (contacts s) n
             \/ exists c,
                 nth_error (contacts s) n = Some c
                 /\ nth_error (contacts (snd (updateContact i data s))) n
                    = Some (update c data)).
Proof.
  split; [intros c data; split; reflexivity |].
  intros s i data.
  destruct (first_or_none (has_id i) (contacts s))
    as [Hn | (before & c & after & Hs & Hb & Hc)].
  - rewrite (updateContact_missing s i data Hn). simpl. auto.
  - rewrite (updateContact_found s i data before c after Hs Hb Hc).
    simpl. rewrite Hs, !map_app, !length_app. simpl.
    repeat split.
    intros n.
    destruct (nth_error_one_changed before after c (update c data) n)
      as [H | [H1 H2]]; [left; exact H | right; exists c; auto].
Qed.

(** C8.  When some record of [contacts] has the given id, [deleteContact]
    removes one record with that id, the first, keeps the others in their
    order, persists the result and returns true; where ids are distinct
    no record with the id is left.  Deleting the only record leaves the
    store empty, with [getCount() = 0]. *)
Theorem delete_removes_the_record (s : ContactManager) (i : JS.number) :
  (exists c, In c (contacts s) /\ JS.strict_eq (id c) i = true) ->
  exists before c after,
    contacts s = before ++ c :: after
    /\ JS.strict_eq (id c) i = true
    /\ (forall x, In x before -> JS.strict_eq (id x) i = false)
    /\ fst (deleteContact i s) = true
    /\ contacts (snd (deleteContact i s)) = before ++ after
    /\ localStorage (snd (deleteContact i s)) = Some (JSON.stringify (before ++ after))
    /\ S (getCount (snd (deleteContact i s))) = getCount s
    /\ (distinct_ids (contacts s) ->
        forall x, In x (contacts (snd (deleteContact i s))) ->
          JS.strict_eq (id x) i = false)
    /\ (List.length (contacts s) = 1%nat ->
        contacts (snd (deleteContact i s)) = []
        /\ getCount (snd (deleteContact i s)) = 0%nat).
Proof.
  intros H.
  destruct (first_split (has_id i) (contacts s) H)
    as (before & c & after & Hs & Hb & Hc).
  exists before, c, after.
  rewrite (deleteContact_found s i before c after Hs Hb Hc).
  unfold getCount. cbn [fst snd contacts localStorage].
  rewrite Hs, !length_app. cbn [List.length].
  unfold none_of in Hb. rewrite Forall_forall in Hb.
  split; [reflexivity |]. split; [exact Hc |]. split; [exact Hb |].
  split; [reflexivity |]. split; [reflexivity |]. split; [reflexivity |].
  split; [lia |]. split.
  - intros Hd x Hx. apply in_app_or in Hx. destruct Hx as [Hx | Hx].
    + now apply Hb.
    + unfold distinct_ids in Hd. rewrite map_app in Hd. cbn [map] in Hd.
      apply ordered_pairs_after in Hd.
      rewrite Forall_map, Forall_forall in Hd.
      exact (strict_eq_common (id c) (id x) i Hc (Hd x Hx)).
  - intros Hlen. destruct before, after; simpl in Hlen; try lia.
    split; reflexivity.
Qed.

Lemma delete_removes_the_record_witness :
  exists before c after,
    contacts Sample.two = before ++ c :: after
    /\ JS.strict_eq (id c) Sample.janeId = true
    /\ (forall x, In x before -> JS.strict_eq (id x) Sample.janeId = false)
    /\ fst (deleteContact Sample.janeId Sample.two) = true
    /\ contacts (snd (deleteContact Sample.janeId Sample.two)) = before ++ after
    /\ localStorage (snd (deleteContact Sample.janeId Sample.two))
       = Some (JSON.stringify (before ++ after))
    /\ S (getCount (snd (deleteContact Sample.janeId Sample.two))) = getCount Sample.two
    /\ (distinct_ids (contacts Sample.two) ->
        forall x, In x (contacts (snd (deleteContact Sample.janeId Sample.two))) ->
          JS.strict_eq (id x) Sample.janeId = false)
    /\ (List.length (contacts Sample.two) = 1%nat ->
        contacts (snd (deleteContact Sample.janeId Sample.two)) = []
        /\ getCount (snd (deleteContact Sample.janeId Sample.two)) = 0%nat).
Proof.
  apply (delete_removes_the_record Sample.two Sample.janeId).
  exists (fst (addContact Sample.clock1 Sample.jane emptyStore)).
  split; [left | ]; vm_compute; reflexivity.
Defined.

(** C10.  A [deleteContact] that finds its record sets [filteredContacts]
    to a copy of [contacts] as they are after the removal, whatever the
    filtered view was before. *)
Theorem delete_resets_filter (s : ContactManager) (i : JS.number) :
  (exists c, In c (contacts s) /\ JS.strict_eq (id c) i = true) ->
  fst (deleteContact i s) = true
  /\ filteredContacts (snd (deleteContact i s)) = contacts (snd (deleteContact i s)).
Proof.
  intros H.
  destruct (first_split (has_id i) (contacts s) H)
    as (before & c & after & Hs & Hb & Hc).
  rewrite (deleteContact_found s i before c after Hs Hb Hc).
  split; reflexivity.
Qed.

Lemma delete_resets_filter_witness :
  fst (deleteContact Sample.bobId (searchContacts "zzz" Sample.two)) = true
  /\ filteredContacts (snd (deleteContact Sample.bobId (searchContacts "zzz" Sample.two)))
     = contacts (snd (deleteContact Sample.bobId (searchContacts "zzz" Sample.two))).
Proof.
  apply (delete_resets_filter (searchContacts "zzz" Sample.two) Sample.bobId).
  exists (fst (addContact Sample.clock3 Sample.bob emptyStore)).
  split; [right; left | ]; vm_compute; reflexivity.
Defined.

(** ** The store: search *)

Lemma occurs_in_empty (t : string) : occurs_in t "" -> t = "".
Proof.
  intros (a & b & H). destruct a; simpl in H; [| discriminate].
  destruct t; [reflexivity | discriminate].
Qed.

(** The filter's predicate says what the search rule says, for a query
    that is not empty. *)
Lemma matches_spec (query : string) (c : Contact) :
  query <> "" ->
  matches (JS.toLowerCase query) c = true <-> spec_matches query c.
Proof.
  intros Hq. unfold matches, spec_matches.
  rewrite !orb_true_iff, andb_true_iff, !includes_occurs, truthy_true_iff.
  split.
  - intros [[[[H | H] | H] | H] | [_ H]]; auto 6.
  - intros [H | [H | [H | [H | H]]]]; auto 6.
    right. split; [| exact H].
    intros He. rewrite He in H. apply occurs_in_empty in H.
    apply toLowerCase_empty in H. contradiction.
Qed.






(** ** The store: add *)

Lemma add_all_cons (k : Clock) (data : ContactFormData)
    (adds : list (Clock * ContactFormData)) (s : ContactManager) :
  add_all ((k, data) :: adds) s =
    (fst (addContact k data s) :: fst (add_all adds (snd (addContact k data s))),
     snd (add_all adds (snd (addContact k data s)))).
Proof.
  cbn [add_all]. destruct (addContact k data s) as [c s1].
  cbn [fst snd]. destruct (add_all adds s1). reflexivity.
Qed.

Lemma add_all_contacts (adds : list (Clock * ContactFormData)) (s : ContactManager) :
  contacts (snd (add_all adds s)) = contacts s ++ fst (add_all adds s).
Proof.
  revert s. induction adds as [| [k data] adds IH]; intros s.
  - simpl. now rewrite app_nil_r.
  - rewrite add_all_cons. cbn [fst snd]. rewrite IH, addContact_spec.
    cbn [fst snd contacts]. now rewrite <- app_assoc.
Qed.

Lemma add_all_returned (adds : list (Clock * ContactFormData)) (s : ContactManager) :
  List.length (fst (add_all adds s)) = List.length adds.
Proof.
  revert s. induction adds as [| [k data] adds IH]; intros s.
  - reflexivity.
  - rewrite add_all_cons. cbn [fst List.length]. now rewrite IH.
Qed.

Lemma add_all_run (adds : list (Clock * ContactFormData)) (s : ContactManager) :
  snd (add_all adds s) = run (as_calls adds) s.
Proof.
  revert s. induction adds as [| [k data] adds IH]; intros s.
  - reflexivity.
  - rewrite add_all_cons. cbn [snd]. rewrite IH. reflexivity.
Qed.

(** C4.  [addContact] makes one record from the form data, with [email]
    and [address] the empty string when absent, appends it to [contacts],
    sets [filteredContacts] to a copy of [contacts], persists the
    snapshot and returns the record.  From an empty store, [N] adds leave
    [N] records, and [getCount()] is [N]. *)
Theorem addContact_appends :
  (forall (k : Clock) (data : ContactFormData) (s : ContactManager),
      let c := fst (addContact k data s) in
      let s' := snd (addContact k data s) in
      firstName c = form_firstName data
      /\ lastName c = form_lastName data
      /\ userName c = form_userName data
      /\ phone c = form_phone data
      /\ email c = match form_email data with Some e => e | None => "" end
      /\ address c = match form_address data with Some a => a | None => "" end
      /\ contacts s' = contacts s ++ [c]
      /\ filteredContacts s' = contacts s'
      /\ localStorage s' = Some (JSON.stringify (contacts s')))
  /\ (forall (adds : list (Clock * ContactFormData)) (s : ContactManager),
         contacts s = [] ->
         List.length (contacts (snd (add_all adds s))) = List.length adds
         /\ getCount (snd (add_all adds s)) = List.length adds).
Proof.
  split.
  - intros k data s. rewrite addContact_spec. simpl.
    repeat split.
    + destruct (form_email data) as [[| a e] |]; reflexivity.
    + destruct (form_address data) as [[| a e] |]; reflexivity.
  - intros adds s Hs. unfold getCount.
    rewrite add_all_contacts, Hs. cbn [app].
    rewrite add_all_returned. auto.
Qed.

(** ** Persistence *)

Lemma of_number_plain (x : JS.number) :
  plain_number x -> JSON.of_number x = Some x.
Proof.
  intros [Hf Hz]. unfold JSON.of_number. rewrite Hf.
  destruct (is_zero x); [now rewrite Hz | reflexivity].
Qed.

Lemma revive_of_contact (k : Clock) (c : Contact) :
  storable c -> revive k (JSON.of_contact c) = c.
Proof.
  intros [Hid Hdate]. destruct c as [i fn ln un ph em ad d]; simpl in *.
  unfold revive, JSON.of_contact, set_createdAt, set_id, newContact; simpl.
  rewrite (of_number_plain i Hid). simpl.
  destruct d as [| ms]; [contradiction |].
  destruct un; reflexivity.
Qed.

Lemma revive_from_stringify (clock : nat -> Clock) (n : nat) (l : list Contact) :
  Forall storable l -> revive_from clock n (JSON.stringify l) = l.
Proof.
  intros H. revert n. induction H as [| c l Hc _ IH]; intros n; simpl.
  - reflexivity.
  - now rewrite (revive_of_contact (clock n) c Hc), IH.
Qed.

(** The clock read by [new Contact] during a load does not show in the
    record: its id and date are overwritten from the stored object. *)
Lemma revive_clock_irrelevant (k k' : Clock) (data : StoredContact) :
  revive k data = revive k' data.
Proof. reflexivity. Qed.

Lemma revive_from_map (clock : nat -> Clock) (n : nat) (data : list StoredContact) :
  revive_from clock n data = map (revive (clock 0%nat)) data.
Proof.
  revert n. induction data as [| d data IH]; intros n; simpl.
  - reflexivity.
  - now rewrite IH, (revive_clock_irrelevant (clock n) (clock 0%nat)).
Qed.

Lemma save_then_load_map (clock : nat -> Clock) (l : list Contact) :
  save_then_load clock l = map (fun c => revive (clock 0%nat) (JSON.of_contact c)) l.
Proof.
  unfold save_then_load, init, loadContacts; simpl.
  rewrite revive_from_map. unfold JSON.stringify. apply map_map.
Qed.

Lemma revive_of_contact_fields (k : Clock) (c : Contact) :
  firstName (revive k (JSON.of_contact c)) = firstName c
  /\ lastName (revive k (JSON.of_contact c)) = lastName c
  /\ userName (revive k (JSON.of_contact c)) = userName c
  /\ phone (revive k (JSON.of_contact c)) = phone c
  /\ email (revive k (JSON.of_contact c)) = email c
  /\ address (revive k (JSON.of_contact c)) = address c
  /\ (plain_number (id c) -> id (revive k (JSON.of_contact c)) = id c)
  /\ (createdAt c <> JS.InvalidDate ->
      createdAt (revive k (JSON.of_contact c)) = createdAt c).
Proof.
  destruct c as [i fn ln un ph em ad d]; simpl.
  repeat split.
  - destruct un; reflexivity.
  - intros Hi. now rewrite (of_number_plain i Hi).
  - intros Hd. destruct d; [contradiction | reflexivity].
Qed.

Lemma storable_new (k : Clock) (fn ln un ph : string) (em ad : option string) :
  plain_number (drawn_id k) -> storable (newContact k fn ln un ph em ad).
Proof. intros H. split; [exact H | discriminate]. Qed.

Lemma storable_updated (c : Contact) (data : PartialFormData) :
  storable c -> storable (update c data).
Proof. intros H. exact H. Qed.

Lemma kept_empty : kept emptyStore.
Proof. split; [left; split; reflexivity | constructor]. Qed.

Lemma kept_call (c : Call) (s : ContactManager) :
  plain_draw c -> kept s -> kept (call c s).
Proof.
  intros Hc (Hp & Hst).
  destruct c as [k data | i data | i | query | clock]; cbn [call].
  - rewrite addContact_spec. cbv zeta. cbn [snd]. split; [right; reflexivity |].
    cbn [contacts]. apply Forall_app. split; [exact Hst |].
    constructor; [now apply storable_new | constructor].
  - destruct (first_or_none (has_id i) (contacts s))
      as [Hn | (before & c & after & Hs & Hb & Hi)].
    + rewrite (updateContact_missing s i data Hn). now split.
    + rewrite (updateContact_found s i data before c after Hs Hb Hi).
      cbn [snd]. split; [right; reflexivity |]. cbn [contacts].
      rewrite Hs in Hst. apply Forall_app in Hst. destruct Hst as [H1 H2].
      inversion H2; subst. apply Forall_app. split; [exact H1 |].
      constructor; [now apply storable_updated | assumption].
  - destruct (first_or_none (has_id i) (contacts s))
      as [Hn | (before & c & after & Hs & Hb & Hi)].
    + rewrite (deleteContact_missing s i Hn). now split.
    + rewrite (deleteContact_found s i before c after Hs Hb Hi).
      cbn [snd]. split; [right; reflexivity |]. cbn [contacts].
      rewrite Hs in Hst. apply Forall_app in Hst. destruct Hst as [H1 H2].
      inversion H2; subst. apply Forall_app. now split.
  - unfold searchContacts.
    destruct (negb (JS.truthy (JS.trim query))); now split.
  - unfold kept, persisted, init, loadContacts, newManager.
    destruct Hp as [[Hnone Hnil] | Hsome].
    + rewrite Hnone. cbn. split; [now left | constructor].
    + rewrite Hsome.
      cbn [localStorage contacts set_contacts set_filteredContacts].
      rewrite (revive_from_stringify clock 0 (contacts s) Hst).
      split; [now right | exact Hst].
Qed.

Lemma kept_run (calls : list Call) (s : ContactManager) :
  plain_draws calls -> kept s -> kept (run calls s).
Proof.
  intros Hc. revert s. induction Hc as [| c calls Hc _ IH]; intros s Hs.
  - exact Hs.
  - cbn [run fold_left]. apply IH. now apply kept_call.
Qed.

(** C5.  Saving the contacts and loading them back gives the same
    sequence of records: same length, same order, every record with its
    id, creation date and six text fields as before.  This is so for
    the contacts of every state the program reaches, and for every
    sequence of records whose ids are finite numbers other than [-0] and
    whose dates are valid, which is what the constructor makes and an
    update keeps.  The clock read during the load has no part in the
    result: ids and creation dates come from the snapshot.  (For any
    records at all, the length, the order and the text fields come back,
    and each id or date does that is such a number or valid.) *)
Theorem save_load_round_trip (clock : nat -> Clock) :
  (forall calls, plain_draws calls ->
     save_then_load clock (contacts (run calls emptyStore))
     = contacts (run calls emptyStore))
  /\ (forall l, Forall storable l -> save_then_load clock l = l)
  /\ (forall k fn ln un ph em ad,
        plain_number (drawn_id k) -> storable (newContact k fn ln un ph em ad))
  /\ (forall c data, storable c -> storable (update c data))
  /\ (forall clock' l, save_then_load clock' l = save_then_load clock l)
  /\ (forall l,
        List.length (save_then_load clock l) = List.length l
        /\ map firstName (save_then_load clock l) = map firstName l
        /\ map lastName (save_then_load clock l) = map lastName l
        /\ map userName (save_then_load clock l) = map userName l
        /\ map phone (save_then_load clock l) = map phone l
        /\ map email (save_then_load clock l) = map email l
        /\ map address (save_then_load clock l) = map address l)
  /\ (forall l n c, nth_error l n = Some c ->
        exists c',
          nth_error (save_then_load clock l) n = Some c'
          /\ (plain_number (id c) -> id c' = id c)
          /\ (createdAt c <> JS.InvalidDate -> createdAt c' = createdAt c)).
Proof.
  assert (Hall : forall l, Forall storable l -> save_then_load clock l = l).
  { intros l H. unfold save_then_load, init, loadContacts; simpl.
    now apply revive_from_stringify. }
  split.
  { intros calls Hc. apply Hall. now apply (kept_run calls emptyStore Hc kept_empty). }
  split; [exact Hall |].
  split; [intros; now apply storable_new |].
  split; [intros; now apply storable_updated |].
  split.
  { intros clock' l. rewrite !save_then_load_map. apply map_ext.
    intros c. apply revive_clock_irrelevant. }
  split.
  { intros l. rewrite save_then_load_map.
    split; [apply length_map |].
    repeat split; rewrite map_map; apply map_ext; intros c;
      apply (revive_of_contact_fields (clock 0%nat) c). }
  intros l n c Hn. rewrite save_then_load_map.
  exists (revive (clock 0%nat) (JSON.of_contact c)).
  split;
    [exact (map_nth_error
              (fun c0 => revive (clock 0%nat) (JSON.of_contact c0)) n l Hn) |].
  split; apply (revive_of_contact_fields (clock 0%nat) c).
Qed.

Lemma save_load_round_trip_witness :
  save_then_load (fun _ => Sample.clock2)
    (contacts (run (Sample.history ++ as_calls Sample.later) emptyStore))
  = contacts (run (Sample.history ++ as_calls Sample.later) emptyStore).
Proof.
  apply (proj1 (save_load_round_trip (fun _ => Sample.clock2))
           (Sample.history ++ as_calls Sample.later)).
  repeat constructor; try (vm_compute; reflexivity);
    try (intros H; vm_compute in H; discriminate).
Defined.

(** A stored object without [createdAt] is none that [saveToStorage]
    writes.  The record [loadContacts] makes of one has an invalid date,
    which is written as [null] and read back as the epoch. *)
Lemma save_load_resets_invalid_date :
  map createdAt (contacts Sample.legacyStore) = [JS.InvalidDate]
  /\ map createdAt
       (save_then_load (fun _ => Sample.clock3) (contacts Sample.legacyStore))
     = [JS.DateAt 0]
  /\ save_then_load (fun _ => Sample.clock3) (contacts Sample.legacyStore)
     <> contacts Sample.legacyStore.
Proof.
  split; [reflexivity |]. split; [reflexivity |].
  intros H. apply (f_equal (map createdAt)) in H.
  vm_compute in H. discriminate.
Qed.

(** ** Ids *)


Lemma finite_self_eq (x : JS.number) : is_finite x = true -> JS.strict_eq x x = true.
Proof.
  unfold is_finite, is_nan, JS.strict_eq.
  destruct (PrimFloat.eqb x x); [reflexivity | discriminate].
Qed.

Lemma consistent_empty : consistent emptyStore.
Proof.
  split; [constructor | split; [constructor |]].
  left. split; reflexivity.
Qed.

Lemma consistent_add (k : Clock) (data : ContactFormData) (s : ContactManager) :
  consistent s -> fresh_id (drawn_id k) (contacts s) ->
  consistent (snd (addContact k data s)).
Proof.
  intros (Hd & Hst & _) [Hplain Hnone]. rewrite addContact_spec.
  unfold consistent; cbn [snd contacts localStorage]. split; [| split].
  - unfold distinct_ids. rewrite map_app. apply ordered_pairs_snoc; [exact Hd |].
    apply Forall_map. exact Hnone.
  - apply Forall_app. split; [exact Hst |].
    repeat constructor; [apply Hplain | apply Hplain | discriminate].
  - right. reflexivity.
Qed.

Lemma storable_update (c : Contact) (data : PartialFormData) :
  storable c -> storable (update c data).
Proof. intros H. exact H. Qed.

Lemma consistent_update (i : JS.number) (data : PartialFormData) (s : ContactManager) :
  consistent s -> consistent (snd (updateContact i data s)).
Proof.
  intros (Hd & Hst & Hp).
  destruct (first_or_none (has_id i) (contacts s))
    as [Hn | (before & c & after & Hs & Hb & Hc)].
  - rewrite (updateContact_missing s i data Hn). repeat split; assumption.
  - rewrite (updateContact_found s i data before c after Hs Hb Hc).
    unfold consistent; cbn [snd contacts localStorage].
    rewrite Hs in Hd, Hst. split; [| split].
    + unfold distinct_ids in *. rewrite map_app in *. exact Hd.
    + apply Forall_app in Hst. destruct Hst as [H1 H2].
      inversion H2; subst. apply Forall_app. split; [exact H1 |].
      constructor; [now apply storable_update | assumption].
    + right. reflexivity.
Qed.

Lemma consistent_delete (i : JS.number) (s : ContactManager) :
  consistent s -> consistent (snd (deleteContact i s)).
Proof.
  intros (Hd & Hst & Hp).
  destruct (first_or_none (has_id i) (contacts s))
    as [Hn | (before & c & after & Hs & Hb & Hc)].
  - rewrite (deleteContact_missing s i Hn). repeat split; assumption.
  - rewrite (deleteContact_found s i before c after Hs Hb Hc).
    unfold consistent; cbn [snd contacts localStorage].
    rewrite Hs in Hd, Hst. split; [| split].
    + unfold distinct_ids in *. rewrite map_app in *.
      now apply ordered_pairs_remove in Hd.
    + apply Forall_app in Hst. destruct Hst as [H1 H2].
      inversion H2; subst. apply Forall_app. now split.
    + right. reflexivity.
Qed.

Lemma consistent_search (query : string) (s : ContactManager) :
  consistent s -> consistent (searchContacts query s).
Proof.
  intros H. unfold searchContacts.
  destruct (negb (JS.truthy (JS.trim query))); exact H.
Qed.

(** A page load over a consistent store brings [contacts] back as they
    were. *)
Lemma reload_contacts (clock : nat -> Clock) (s : ContactManager) :
  consistent s -> contacts (init clock (localStorage s)) = contacts s.
Proof.
  intros (_ & Hst & [[Hnone Hnil] | Hsome]); unfold init, loadContacts, newManager.
  - rewrite Hnone, Hnil. reflexivity.
  - rewrite Hsome. cbn [localStorage set_contacts set_filteredContacts contacts].
    now apply revive_from_stringify.
Qed.

Lemma consistent_reload (clock : nat -> Clock) (s : ContactManager) :
  consistent s -> consistent (init clock (localStorage s)).
Proof.
  intros H. pose proof (reload_contacts clock s H) as Hc.
  destruct H as (Hd & Hst & Hp).
  unfold consistent. rewrite Hc. split; [exact Hd | split; [exact Hst |]].
  unfold persisted. rewrite Hc.
  replace (localStorage (init clock (localStorage s))) with (localStorage s);
    [exact Hp |].
  unfold init, loadContacts, newManager. cbn [localStorage].
  destruct (localStorage s); reflexivity.
Qed.

Lemma consistent_call (c : Call) (s : ContactManager) :
  consistent s -> fresh_call c s -> consistent (call c s).
Proof.
  intros Hs Hf. destruct c as [k data | i data | i | query | clock]; cbn [call].
  - now apply consistent_add.
  - now apply consistent_update.
  - now apply consistent_delete.
  - now apply consistent_search.
  - now apply consistent_reload.
Qed.

Lemma consistent_run (calls : list Call) (s : ContactManager) :
  consistent s -> fresh_calls calls s -> consistent (run calls s).
Proof.
  revert s. induction calls as [| c calls IH]; intros s Hs Hf.
  - exact Hs.
  - destruct Hf as [Hc Hr]. cbn [run fold_left].
    apply IH; [now apply consistent_call | exact Hr].
Qed.

Lemma fresh_calls_app (calls more : list Call) (s : ContactManager) :
  fresh_calls (calls ++ more) s ->
  fresh_calls calls s /\ fresh_calls more (run calls s).
Proof.
  revert s. induction calls as [| c calls IH]; intros s; simpl.
  - auto.
  - intros [Hc Hr]. destruct (IH _ Hr). auto.
Qed.

Lemma run_app (calls more : list Call) (s : ContactManager) :
  run (calls ++ more) s = run more (run calls s).
Proof. unfold run. apply fold_left_app. Qed.

(** Each record a run of fresh adds returns is the first of its id. *)
Lemma added_is_first (adds : list (Clock * ContactFormData)) (s : ContactManager) :
  fresh_calls (as_calls adds) s ->
  forall r, In r (fst (add_all adds s)) ->
    find (has_id (id r)) (contacts (snd (add_all adds s))) = Some r.
Proof.
  revert s. induction adds as [| [k data] adds IH]; intros s Hf r Hr.
  - contradiction.
  - destruct Hf as [[Hplain Hnone] Hrest].
    rewrite add_all_cons in Hr |- *. cbn [fst snd] in Hr |- *.
    destruct Hr as [<- | Hr].
    + rewrite add_all_contacts, addContact_spec. cbn [fst snd contacts].
      rewrite <- app_assoc. cbn [app].
      apply find_split; [exact Hnone |].
      apply finite_self_eq, Hplain.
    + apply IH; [exact Hrest | exact Hr].
Qed.

(** C7, as amended.  In a run of calls (add, update, delete, search,
    page load) from the empty store in which every [addContact] draws for
    [Date.now() + Math.random()] a finite number other than [-0] that is
    the id of no record then in [contacts], the ids of the records in
    [contacts] are pairwise distinct; and when the run ends with a
    sequence of adds, a linear scan of [contacts] for the id of a record
    one of them returned finds that record. *)
Theorem fresh_ids_stay_distinct
    (calls : list Call) (adds : list (Clock * ContactFormData)) :
  fresh_calls (calls ++ as_calls adds) emptyStore ->
  distinct_ids (contacts (run (calls ++ as_calls adds) emptyStore))
  /\ forall r, In r (fst (add_all adds (run calls emptyStore))) ->
       find (has_id (id r)) (contacts (run (calls ++ as_calls adds) emptyStore))
       = Some r.
Proof.
  intros Hf. split.
  - now apply consistent_run; [apply consistent_empty |].
  - apply fresh_calls_app in Hf. destruct Hf as [_ Hadds].
    intros r Hr. rewrite run_app, <- add_all_run.
    now apply added_is_first.
Qed.

Lemma fresh_ids_stay_distinct_witness :
  distinct_ids
    (contacts (run (Sample.history ++ as_calls Sample.later) emptyStore))
  /\ forall r, In r (fst (add_all Sample.later (run Sample.history emptyStore))) ->
       find (has_id (id r))
         (contacts (run (Sample.history ++ as_calls Sample.later) emptyStore))
       = Some r.
Proof.
  apply (fresh_ids_stay_distinct Sample.history Sample.later).
  repeat split; try (vm_compute; reflexivity);
    try (intros H; vm_compute in H; discriminate).
  - constructor.
  - vm_compute. repeat constructor.
Defined.

(** C7 as stated fails: two adds within one millisecond whose random
    numbers differ by 1/16384 get the same id.  The store is reachable,
    its two records have equal ids, and the scan for the id the second
    add returned finds the first record. *)
Lemma same_millisecond_same_id :
  reachable Sample.clash
  /\ ~ distinct_ids (contacts Sample.clash)
  /\ In Sample.bobInClash (fst (add_all Sample.clashAdds emptyStore))
  /\ find (has_id (id Sample.bobInClash)) (contacts Sample.clash)
     <> Some Sample.bobInClash
  /\ option_map firstName
       (find (has_id (id Sample.bobInClash)) (contacts Sample.clash))
     = Some "Jane".
Proof.
  split; [exists (as_calls Sample.clashAdds); reflexivity |].
  split.
  - intros H. vm_compute in H.
    inversion H as [| ? ? Hfirst _]; subst.
    inversion Hfirst as [| ? ? Heq _]; subst.
    vm_compute in Heq. discriminate.
  - split; [right; left; reflexivity |].
    split; [| reflexivity].
    intros H. apply (f_equal (option_map firstName)) in H.
    vm_compute in H. discriminate.
Qed.

(** ** The scenarios of the specification, evaluated *)

Example scenario_add_jane :
  getCount Sample.one = 1%nat
  /\ map getFullName (contacts Sample.one) = ["Jane Doe"]
  /\ map getInitials (contacts Sample.one) = [JS.widen "JD"].
Proof. repeat split. Qed.

Example scenario_search_smith :
  map userName (contacts Sample.two) = ["jdoe"; "bsmith"]
  /\ map userName (filteredContacts (searchContacts "smith" Sample.two)) = ["bsmith"].
Proof. split; reflexivity. Qed.

Example scenario_search_untrimmed :
  filteredContacts (searchContacts " smith" Sample.two) = []
  /\ filteredContacts (searchContacts "   " Sample.two) = contacts Sample.two.
Proof. split; reflexivity. Qed.

Example scenario_update_doer :
  map getFullName (contacts (snd (updateContact Sample.janeId Sample.doer Sample.one)))
  = ["Jane Doer"].
Proof. reflexivity. Qed.

Example scenario_delete_only :
  deleteContact Sample.janeId Sample.one
  = (true, saveToStorage (set_filteredContacts (set_contacts Sample.one []) [])).
Proof. reflexivity. Qed.

Example scenario_delete_in_clash :
  map firstName (contacts Sample.clash) = ["Jane"; "Bob"]
  /\ map firstName (contacts (snd (deleteContact (id Sample.bobInClash) Sample.clash)))
     = ["Bob"].
Proof. split; reflexivity. Qed.


(** * Further properties of the code *)

(** ** Persistence *)

Lemma of_number_again (x : JS.number) :
  JSON.of_number (id_of_stored (JSON.of_number x)) = JSON.of_number x.
Proof.
  unfold JSON.of_number. destruct (is_finite x) eqn:Hf; [| reflexivity].
  destruct (is_zero x) eqn:Hz; cbn [id_of_stored].
  - reflexivity.
  - now rewrite Hf, Hz.
Qed.

Lemma date_again (d : JS.Date) :
  date_of_stored (JSON.of_date (date_of_stored (JSON.of_date d)))
  = date_of_stored (JSON.of_date d).
Proof. destruct d; reflexivity. Qed.

Lemma revive_eq (k : Clock) (d : StoredContact) :
  revive k d =
  {| id := id_of_stored (stored_id d);
     firstName := stored_firstName d;
     lastName := stored_lastName d;
     userName := JS.or_else (stored_userName d) "";
     phone := stored_phone d;
     email := JS.default_arg (stored_email d) "";
     address := JS.default_arg (stored_address d) "";
     createdAt := date_of_stored (stored_createdAt d) |}.
Proof. reflexivity. Qed.

Ltac stored_fields :=
  cbn [id firstName lastName userName phone email address createdAt
       stored_id stored_firstName stored_lastName stored_userName
       stored_phone stored_email stored_address stored_createdAt
       JS.default_arg].

Lemma revive_again (k k' : Clock) (c : Contact) :
  revive k' (JSON.of_contact (revive k (JSON.of_contact c)))
  = revive k (JSON.of_contact c).
Proof.
  rewrite !revive_eq. unfold JSON.of_contact. stored_fields.
  rewrite of_number_again, date_again.
  destruct (userName c); reflexivity.
Qed.

(** X1.  Saving and loading a second time changes nothing more: what one
    cycle gives back is what every later cycle gives back. *)
Theorem save_then_load_idempotent (clock clock' : nat -> Clock) (l : list Contact) :
  save_then_load clock' (save_then_load clock l) = save_then_load clock l.
Proof.
  rewrite !save_then_load_map, map_map. apply map_ext.
  intros c. apply revive_again.
Qed.

(** ** Reachable states *)

Lemma filter_all {A : Type} (l : list A) : filter (fun _ => true) l = l.
Proof. induction l; simpl; congruence. Qed.

Lemma derived_view_all (s : ContactManager) :
  filteredContacts s = contacts s -> derived_view s.
Proof. intros H. exists (fun _ => true). now rewrite filter_all. Qed.

Lemma settled_empty : settled emptyStore.
Proof.
  split; [left; split; reflexivity |].
  split; [constructor | now apply derived_view_all].
Qed.

Lemma settled_add (k : Clock) (data : ContactFormData) (s : ContactManager) :
  settled s -> settled (snd (addContact k data s)).
Proof.
  intros (_ & Hv & _). rewrite addContact_spec.
  unfold settled; cbn [snd contacts].
  split; [right; reflexivity |].
  split; [| now apply derived_view_all].
  apply Forall_app. split; [exact Hv |].
  constructor; [discriminate | constructor].
Qed.

Lemma settled_update (i : JS.number) (data : PartialFormData) (s : ContactManager) :
  settled s -> settled (snd (updateContact i data s)).
Proof.
  intros Hs.
  destruct (first_or_none (has_id i) (contacts s))
    as [Hn | (before & c & after & Hc & Hb & Hi)].
  - now rewrite (updateContact_missing s i data Hn).
  - rewrite (updateContact_found s i data before c after Hc Hb Hi).
    destruct Hs as (_ & Hv & _). rewrite Hc in Hv.
    unfold settled; cbn [snd contacts].
    split; [right; reflexivity |].
    split; [| now apply derived_view_all].
    apply Forall_app in Hv. destruct Hv as [H1 H2]. inversion H2; subst.
    apply Forall_app. split; [exact H1 |]. constructor; assumption.
Qed.

Lemma settled_delete (i : JS.number) (s : ContactManager) :
  settled s -> settled (snd (deleteContact i s)).
Proof.
  intros Hs.
  destruct (first_or_none (has_id i) (contacts s))
    as [Hn | (before & c & after & Hc & Hb & Hi)].
  - now rewrite (deleteContact_missing s i Hn).
  - rewrite (deleteContact_found s i before c after Hc Hb Hi).
    destruct Hs as (_ & Hv & _). rewrite Hc in Hv.
    unfold settled; cbn [snd contacts].
    split; [right; reflexivity |].
    split; [| now apply derived_view_all].
    apply Forall_app in Hv. destruct Hv as [H1 H2]. inversion H2; subst.
    apply Forall_app. now split.
Qed.

Lemma settled_search (query : string) (s : ContactManager) :
  settled s -> settled (searchContacts query s).
Proof.
  intros (Hp & Hv & _). unfold searchContacts.
  destruct (negb (JS.truthy (JS.trim query))).
  - split; [exact Hp | split; [exact Hv | now apply derived_view_all]].
  - split; [exact Hp | split; [exact Hv |]].
    exists (matches (JS.toLowerCase query)). reflexivity.
Qed.

Lemma of_contact_revive (k : Clock) (c : Contact) :
  valid_date c -> JSON.of_contact (revive k (JSON.of_contact c)) = JSON.of_contact c.
Proof.
  intros Hv. rewrite revive_eq. unfold JSON.of_contact. stored_fields.
  rewrite of_number_again.
  unfold valid_date in Hv.
  destruct (userName c), (createdAt c); try contradiction; reflexivity.
Qed.

Lemma valid_date_revive (k : Clock) (c : Contact) :
  valid_date c -> valid_date (revive k (JSON.of_contact c)).
Proof.
  unfold valid_date. rewrite revive_eq. unfold JSON.of_contact. stored_fields.
  destruct (createdAt c); [contradiction | discriminate].
Qed.

(** What a page load finds, in a state whose storage is in step. *)
Lemma reload_is_save_then_load (clock : nat -> Clock) (s : ContactManager) :
  persisted s ->
  contacts (init clock (localStorage s)) = save_then_load clock (contacts s)
  /\ filteredContacts (init clock (localStorage s)) = save_then_load clock (contacts s)
  /\ localStorage (init clock (localStorage s)) = localStorage s.
Proof.
  intros [[Hnone Hnil] | Hsome].
  - rewrite Hnone, Hnil. repeat split.
  - rewrite Hsome. repeat split.
Qed.

Lemma settled_reload (clock : nat -> Clock) (s : ContactManager) :
  settled s -> settled (init clock (localStorage s)).
Proof.
  intros (Hp & Hv & _).
  destruct (reload_is_save_then_load clock s Hp) as (Hc & Hf & Hl).
  unfold settled, persisted. rewrite Hl, Hc.
  split; [| split].
  - destruct Hp as [[Hnone Hnil] | Hsome].
    + left. split; [exact Hnone | now rewrite Hnil].
    + right. rewrite Hsome. f_equal.
      rewrite save_then_load_map. unfold JSON.stringify. rewrite map_map.
      apply map_ext_in. intros c Hin. symmetry. apply of_contact_revive.
      rewrite Forall_forall in Hv. now apply Hv.
  - rewrite save_then_load_map. apply Forall_map.
    eapply Forall_impl; [| exact Hv].
    intros c. apply valid_date_revive.
  - apply derived_view_all. now rewrite Hf, Hc.
Qed.

Lemma settled_call (c : Call) (s : ContactManager) :
  settled s -> settled (call c s).
Proof.
  intros Hs. destruct c as [k data | i data | i | query | clock]; cbn [call].
  - now apply settled_add.
  - now apply settled_update.
  - now apply settled_delete.
  - now apply settled_search.
  - now apply settled_reload.
Qed.

Lemma settled_run (calls : list Call) (s : ContactManager) :
  settled s -> settled (run calls s).
Proof.
  revert s. induction calls as [| c calls IH]; intros s Hs; [exact Hs |].
  cbn [run fold_left]. apply IH. now apply settled_call.
Qed.

Lemma reachable_settled (s : ContactManager) : reachable s -> settled s.
Proof. intros [calls ->]. apply settled_run, settled_empty. Qed.

(** X2.  In every state reached from the empty store, storage is in step
    with [contacts]: the slot holds what [JSON.stringify] makes of
    [contacts], or is empty while no record was ever saved. *)
Theorem storage_follows_contacts (s : ContactManager) :
  reachable s ->
  localStorage s = Some (JSON.stringify (contacts s))
  \/ (localStorage s = None /\ contacts s = []).
Proof.
  intros H. destruct (reachable_settled s H) as ([Hp | Hp] & _); auto.
Qed.

Lemma storage_follows_contacts_witness :
  localStorage Sample.clash = Some (JSON.stringify (contacts Sample.clash))
  \/ (localStorage Sample.clash = None /\ contacts Sample.clash = []).
Proof.
  apply (storage_follows_contacts Sample.clash).
  exists (as_calls Sample.clashAdds). reflexivity.
Defined.

(** X3.  In every state reached from the empty store, the filtered view
    is a selection of the records of [contacts], in their order. *)
Theorem filtered_view_is_derived (s : ContactManager) :
  reachable s ->
  exists keep, filteredContacts s = filter keep (contacts s).
Proof. intros H. apply (reachable_settled s H). Qed.

Lemma filtered_view_is_derived_witness :
  exists keep,
    filteredContacts (run [CallAdd Sample.clock1 Sample.jane;
                           CallAdd Sample.clock3 Sample.bob;
                           CallSearch "smith"] emptyStore)
    = filter keep
        (contacts (run [CallAdd Sample.clock1 Sample.jane;
                        CallAdd Sample.clock3 Sample.bob;
                        CallSearch "smith"] emptyStore)).
Proof.
  apply (filtered_view_is_derived
           (run [CallAdd Sample.clock1 Sample.jane;
                 CallAdd Sample.clock3 Sample.bob;
                 CallSearch "smith"] emptyStore)).
  eexists. reflexivity.
Defined.

Lemma save_then_load_strings (clock : nat -> Clock) (l : list Contact) :
  map firstName (save_then_load clock l) = map firstName l
  /\ map lastName (save_then_load clock l) = map lastName l
  /\ map userName (save_then_load clock l) = map userName l
  /\ map phone (save_then_load clock l) = map phone l
  /\ map email (save_then_load clock l) = map email l
  /\ map address (save_then_load clock l) = map address l.
Proof.
  rewrite save_then_load_map.
  repeat split; rewrite map_map; apply map_ext; intros c;
    apply (revive_of_contact_fields (clock 0%nat) c).
Qed.

Lemma save_then_load_dates (clock : nat -> Clock) (l : list Contact) :
  Forall valid_date l ->
  map createdAt (save_then_load clock l) = map createdAt l.
Proof.
  intros H. rewrite save_then_load_map, map_map.
  apply map_ext_in. intros c Hin.
  apply (revive_of_contact_fields (clock 0%nat) c).
  rewrite Forall_forall in H. now apply H.
Qed.

Lemma save_then_load_ids (clock : nat -> Clock) (l : list Contact) :
  Forall (fun c => plain_number (id c)) l ->
  map id (save_then_load clock l) = map id l.
Proof.
  intros H. rewrite save_then_load_map, map_map.
  apply map_ext_in. intros c Hin.
  apply (revive_of_contact_fields (clock 0%nat) c).
  rewrite Forall_forall in H. now apply H.
Qed.

(** X4.  A page load in a state reached from the empty store brings back
    as many records, in the same order, each with its six text fields and
    its creation date; ids that are finite numbers other than [-0] come
    back too.  The view shows all of them and storage is not written. *)
Theorem reload_keeps_records (clock : nat -> Clock) (s : ContactManager) :
  reachable s ->
  List.length (contacts (call (CallReload clock) s)) = List.length (contacts s)
  /\ map firstName (contacts (call (CallReload clock) s)) = map firstName (contacts s)
  /\ map lastName (contacts (call (CallReload clock) s)) = map lastName (contacts s)
  /\ map userName (contacts (call (CallReload clock) s)) = map userName (contacts s)
  /\ map phone (contacts (call (CallReload clock) s)) = map phone (contacts s)
  /\ map email (contacts (call (CallReload clock) s)) = map email (contacts s)
  /\ map address (contacts (call (CallReload clock) s)) = map address (contacts s)
  /\ map createdAt (contacts (call (CallReload clock) s)) = map createdAt (contacts s)
  /\ (Forall (fun c => plain_number (id c)) (contacts s) ->
      contacts (call (CallReload clock) s) = contacts s)
  /\ filteredContacts (call (CallReload clock) s) = contacts (call (CallReload clock) s)
  /\ localStorage (call (CallReload clock) s) = localStorage s.
Proof.
  intros H. destruct (reachable_settled s H) as (Hp & Hv & _).
  cbn [call].
  destruct (reload_is_save_then_load clock s Hp) as (Hc & Hf & Hl).
  rewrite Hc, Hf, Hl.
  destruct (save_then_load_strings clock (contacts s)) as (H1 & H2 & H3 & H4 & H5 & H6).
  split; [rewrite save_then_load_map; apply length_map |].
  repeat (split; [assumption |]).
  split; [now apply save_then_load_dates |].
  split; [| split; reflexivity].
  intros Hid. unfold save_then_load, init, loadContacts; simpl.
  apply revive_from_stringify.
  rewrite Forall_forall in *. intros c Hin. split; [now apply Hid | now apply Hv].
Qed.

Lemma reload_keeps_records_witness :
  List.length (contacts (call (CallReload (fun _ => Sample.clock2)) Sample.clash))
  = List.length (contacts Sample.clash)
  /\ map firstName (contacts (call (CallReload (fun _ => Sample.clock2)) Sample.clash))
     = map firstName (contacts Sample.clash)
  /\ map lastName (contacts (call (CallReload (fun _ => Sample.clock2)) Sample.clash))
     = map lastName (contacts Sample.clash)
  /\ map userName (contacts (call (CallReload (fun _ => Sample.clock2)) Sample.clash))
     = map userName (contacts Sample.clash)
  /\ map phone (contacts (call (CallReload (fun _ => Sample.clock2)) Sample.clash))
     = map phone (contacts Sample.clash)
  /\ map email (contacts (call (CallReload (fun _ => Sample.clock2)) Sample.clash))
     = map email (contacts Sample.clash)
  /\ map address (contacts (call (CallReload (fun _ => Sample.clock2)) Sample.clash))
     = map address (contacts Sample.clash)
  /\ map createdAt (contacts (call (CallReload (fun _ => Sample.clock2)) Sample.clash))
     = map createdAt (contacts Sample.clash)
  /\ (Forall (fun c => plain_number (id c)) (contacts Sample.clash) ->
      contacts (call (CallReload (fun _ => Sample.clock2)) Sample.clash)
      = contacts Sample.clash)
  /\ filteredContacts (call (CallReload (fun _ => Sample.clock2)) Sample.clash)
     = contacts (call (CallReload (fun _ => Sample.clock2)) Sample.clash)
  /\ localStorage (call (CallReload (fun _ => Sample.clock2)) Sample.clash)
     = localStorage Sample.clash.
Proof.
  apply (reload_keeps_records (fun _ => Sample.clock2) Sample.clash).
  exists (as_calls Sample.clashAdds). reflexivity.
Defined.

(** ** How the methods compose *)

(** X5.  Adding a record and then deleting by the id the add returned
    gives back the [contacts] from before the add, provided the id drawn
    is a number ([===] to itself) and the id of no record already there.
    The view is reset and the restored list persisted. *)
Theorem add_then_delete_restores
    (k : Clock) (data : ContactFormData) (s : ContactManager) :
  JS.strict_eq (drawn_id k) (drawn_id k) = true ->
  none_of (has_id (drawn_id k)) (contacts s) ->
  deleteContact (id (fst (addContact k data s))) (snd (addContact k data s))
  = (true,
     {| contacts := contacts s;
        currentEditId := currentEditId s;
        filteredContacts := contacts s;
        localStorage := Some (JSON.stringify (contacts s)) |}).
Proof.
  intros Hself Hnone. rewrite addContact_spec. cbv zeta. cbn [fst snd].
  match goal with
  | |- deleteContact ?i ?s1 = _ =>
      rewrite (deleteContact_found s1 i (contacts s) _ [] eq_refl Hnone Hself)
  end.
  cbn [currentEditId]. now rewrite app_nil_r.
Qed.

Lemma add_then_delete_restores_witness :
  deleteContact (id (fst (addContact Sample.clock3 Sample.bob Sample.one)))
    (snd (addContact Sample.clock3 Sample.bob Sample.one))
  = (true,
     {| contacts := contacts Sample.one;
        currentEditId := currentEditId Sample.one;
        filteredContacts := contacts Sample.one;
        localStorage := Some (JSON.stringify (contacts Sample.one)) |}).
Proof.
  apply (add_then_delete_restores Sample.clock3 Sample.bob Sample.one).
  - vm_compute. reflexivity.
  - repeat constructor.
Defined.

(** X6.  When the id an add draws is already the id of a record, deleting
    by the id the add returned removes the first such older record (no
    record before it has the id) and leaves the new one in place. *)
Theorem delete_after_clash_removes_older
    (k : Clock) (data : ContactFormData) (s : ContactManager) :
  (exists c0, In c0 (contacts s) /\ JS.strict_eq (id c0) (drawn_id k) = true) ->
  exists before old after,
    contacts s = before ++ old :: after
    /\ JS.strict_eq (id old) (drawn_id k) = true
    /\ (forall x, In x before -> JS.strict_eq (id x) (drawn_id k) = false)
    /\ fst (deleteContact (id (fst (addContact k data s)))
              (snd (addContact k data s))) = true
    /\ contacts (snd (deleteContact (id (fst (addContact k data s)))
                        (snd (addContact k data s))))
       = before ++ after ++ [fst (addContact k data s)].
Proof.
  intros H.
  destruct (first_split (has_id (drawn_id k)) (contacts s) H)
    as (before & old & after & Hs & Hb & Hold).
  exists before, old, after.
  split; [exact Hs |]. split; [exact Hold |].
  split.
  { intros x Hx. unfold none_of in Hb. rewrite Forall_forall in Hb.
    exact (Hb x Hx). }
  rewrite addContact_spec. cbv zeta. cbn [fst snd].
  match goal with
  | |- fst (deleteContact ?i ?s1) = _ /\ _ =>
      assert (Hs1 : contacts s1 = before ++ old :: (after ++ [_]))
        by (cbn [contacts]; rewrite Hs, <- app_assoc; reflexivity);
      rewrite (deleteContact_found s1 i before old _ Hs1 Hb Hold)
  end.
  split; reflexivity.
Qed.

Lemma delete_after_clash_removes_older_witness :
  exists before old after,
    contacts Sample.one = before ++ old :: after
    /\ JS.strict_eq (id old) (drawn_id Sample.clock2) = true
    /\ (forall x, In x before -> JS.strict_eq (id x) (drawn_id Sample.clock2) = false)
    /\ fst (deleteContact (id (fst (addContact Sample.clock2 Sample.bob Sample.one)))
              (snd (addContact Sample.clock2 Sample.bob Sample.one))) = true
    /\ contacts (snd (deleteContact (id (fst (addContact Sample.clock2 Sample.bob Sample.one)))
                        (snd (addContact Sample.clock2 Sample.bob Sample.one))))
       = before ++ after ++ [fst (addContact Sample.clock2 Sample.bob Sample.one)].
Proof.
  apply (delete_after_clash_removes_older Sample.clock2 Sample.bob Sample.one).
  eexists. split; [left; reflexivity | vm_compute; reflexivity].
Defined.

(** X7.  With pairwise distinct ids, deleting by the same id a second
    time finds nothing: it returns false and leaves the state alone. *)
Theorem delete_again_finds_nothing (i : JS.number) (s : ContactManager) :
  distinct_ids (contacts s) ->
  deleteContact i (snd (deleteContact i s)) = (false, snd (deleteContact i s)).
Proof.
  intros Hd.
  destruct (first_or_none (has_id i) (contacts s))
    as [Hn | (before & c & after & Hs & Hb & Hc)].
  - rewrite (deleteContact_missing s i Hn). cbn [snd].
    now apply deleteContact_missing.
  - rewrite (deleteContact_found s i before c after Hs Hb Hc). cbn [snd].
    apply deleteContact_missing. cbn [contacts].
    apply Forall_app. split; [exact Hb |].
    unfold distinct_ids in Hd. rewrite Hs, map_app in Hd. cbn [map] in Hd.
    apply ordered_pairs_after in Hd. rewrite Forall_map in Hd.
    eapply Forall_impl; [| exact Hd].
    intros x Hx. exact (strict_eq_common (id c) (id x) i Hc Hx).
Qed.

Lemma delete_again_finds_nothing_witness :
  deleteContact Sample.janeId (snd (deleteContact Sample.janeId Sample.two))
  = (false, snd (deleteContact Sample.janeId Sample.two)).
Proof.
  apply (delete_again_finds_nothing Sample.janeId Sample.two).
  vm_compute. repeat constructor.
Defined.

Lemma or_else_again (v : option string) (old : string) :
  JS.or_else v (JS.or_else v old) = JS.or_else v old.
Proof. destruct v as [[| a r] |]; reflexivity. Qed.

Lemma update_again (c : Contact) (data : PartialFormData) :
  update (update c data) data = update c data.
Proof.
  unfold update.
  cbn [id firstName lastName userName phone email address createdAt].
  now rewrite !or_else_again.
Qed.

(** X8.  Updating twice with the same payload is updating once: the
    second call returns the same record and leaves the same state. *)
Theorem update_again_changes_nothing
    (i : JS.number) (data : PartialFormData) (s : ContactManager) :
  updateContact i data (snd (updateContact i data s)) = updateContact i data s.
Proof.
  destruct (first_or_none (has_id i) (contacts s))
    as [Hn | (before & c & after & Hs & Hb & Hc)].
  - rewrite (updateContact_missing s i data Hn). cbn [snd].
    now apply updateContact_missing.
  - rewrite (updateContact_found s i data before c after Hs Hb Hc). cbn [snd].
    match goal with
    | |- updateContact i data ?s1 = _ =>
        rewrite (updateContact_found s1 i data before (update c data) after
                   eq_refl Hb Hc)
    end.
    cbn [currentEditId]. now rewrite update_again.
Qed.

(** ** Search *)

Lemma string_app_assoc (a b c : string) :
  ((a ++ b) ++ c)%string = (a ++ (b ++ c))%string.
Proof. induction a as [| x a IH]; simpl; [reflexivity | now rewrite IH]. Qed.

Lemma toLowerCase_app (a b : string) :
  JS.toLowerCase (a ++ b) = (JS.toLowerCase a ++ JS.toLowerCase b)%string.
Proof. induction a as [| c a IH]; simpl; [reflexivity | now rewrite IH]. Qed.

Lemma blank_app (a b : string) : blank (a ++ b) = blank a && blank b.
Proof.
  induction a as [| c a IH]; simpl; [reflexivity |].
  now rewrite IH, andb_assoc.
Qed.

Lemma occurs_in_trans (t u s : string) :
  occurs_in t u -> occurs_in u s -> occurs_in t s.
Proof.
  intros (a' & b' & ->) (a & b & ->).
  exists (a ++ a')%string, (b' ++ b)%string.
  now rewrite !string_app_assoc.
Qed.

Lemma matches_narrow (t t' : string) (c : Contact) :
  occurs_in t t' -> matches t' c = true -> matches t c = true.
Proof.
  intros Ht. unfold matches.
  rewrite !orb_true_iff, !andb_true_iff, !includes_occurs.
  intros [[[[H | H] | H] | H] | [He H]];
    pose proof (occurs_in_trans _ _ _ Ht H); auto 6.
Qed.

Lemma filter_within {A : Type} (f g : A -> bool) (l : list A) :
  (forall x, f x = true -> g x = true) ->
  filter f l = filter f (filter g l).
Proof.
  intros Hfg. induction l as [| x l IH]; simpl; [reflexivity |].
  destruct (f x) eqn:Hf.
  - rewrite (Hfg x Hf). simpl. now rewrite Hf, IH.
  - destruct (g x); simpl; [now rewrite Hf |]; exact IH.
Qed.

Lemma lower_lower_unit (c : ascii) :
  JS.lower_unit (JS.lower_unit c) = JS.lower_unit c.
Proof. destruct c as [[] [] [] [] [] [] [] []]; reflexivity. Qed.

Lemma white_lower_unit (c : ascii) :
  JS.isWhiteSpace (JS.lower_unit c) = JS.isWhiteSpace c.
Proof. destruct c as [[] [] [] [] [] [] [] []]; reflexivity. Qed.

Lemma toLowerCase_again (q : string) :
  JS.toLowerCase (JS.toLowerCase q) = JS.toLowerCase q.
Proof. induction q; simpl; [reflexivity | now rewrite lower_lower_unit, IHq]. Qed.

Lemma blank_toLowerCase (q : string) : blank (JS.toLowerCase q) = blank q.
Proof. induction q; simpl; [reflexivity | now rewrite white_lower_unit, IHq]. Qed.

Lemma blank_within (q q' : string) :
  occurs_in (JS.toLowerCase q) (JS.toLowerCase q') ->
  blank q' = true -> blank q = true.
Proof.
  intros (a & b & H) Hb.
  rewrite <- blank_toLowerCase, H, !blank_app in Hb.
  apply andb_true_iff in Hb. destruct Hb as [_ Hb].
  apply andb_true_iff in Hb. destruct Hb as [Hb _].
  now rewrite blank_toLowerCase in Hb.
Qed.

(** X9.  A query that contains another one, both taken in lower case,
    never finds more: its view is a selection, in order, of the view for
    the contained query (the records of that view which match the
    containing query, when this one is not white space only), so every
    record it finds the contained query finds too. *)
Theorem longer_query_narrows (s : ContactManager) (q q' : string) :
  occurs_in (JS.toLowerCase q) (JS.toLowerCase q') ->
  (exists keep,
     filteredContacts (searchContacts q' s)
     = filter keep (filteredContacts (searchContacts q s)))
  /\ (blank q' = false ->
      filteredContacts (searchContacts q' s)
      = filter (matches (JS.toLowerCase q'))
          (filteredContacts (searchContacts q s)))
  /\ (forall c, In c (filteredContacts (searchContacts q' s)) ->
                In c (filteredContacts (searchContacts q s))).
Proof.
  intros Hocc.
  assert (Hsel :
    filteredContacts (searchContacts q' s)
    = filter (if blank q' then fun _ => true else matches (JS.toLowerCase q'))
        (filteredContacts (searchContacts q s))).
  { unfold searchContacts. rewrite !trim_falsy_iff.
    destruct (blank q') eqn:Hq'.
    - rewrite (blank_within q q' Hocc Hq').
      cbn [filteredContacts set_filteredContacts]. now rewrite filter_all.
    - destruct (blank q); cbn [filteredContacts set_filteredContacts];
        [reflexivity |].
      apply filter_within. intros c. now apply matches_narrow. }
  split; [eexists; exact Hsel |].
  split.
  - intros Hq'. now rewrite Hq' in Hsel.
  - intros c Hin. rewrite Hsel in Hin. now apply filter_In in Hin.
Qed.

Lemma longer_query_narrows_witness :
  occurs_in (JS.toLowerCase "MI") (JS.toLowerCase "Smith")
  /\ filteredContacts (searchContacts "Smith" Sample.two)
     = filter (matches (JS.toLowerCase "Smith"))
         (filteredContacts (searchContacts "MI" Sample.two)).
Proof.
  assert (H : occurs_in (JS.toLowerCase "MI") (JS.toLowerCase "Smith")).
  { exists "s"%string, "th"%string. reflexivity. }
  split; [exact H |].
  apply (proj1 (proj2 (longer_query_narrows Sample.two "MI" "Smith" H))).
  reflexivity.
Defined.

(** X10.  The case of the letters of a query does not matter: two
    queries that are the same once lowercased leave the store in the
    same state. *)
Theorem query_case_is_ignored (s : ContactManager) (q q' : string) :
  JS.toLowerCase q = JS.toLowerCase q' ->
  searchContacts q s = searchContacts q' s.
Proof.
  intros H. unfold searchContacts. rewrite !trim_falsy_iff.
  rewrite <- (blank_toLowerCase q), <- (blank_toLowerCase q'), H.
  reflexivity.
Qed.

Lemma query_case_is_ignored_witness :
  searchContacts "SMITH" Sample.two = searchContacts "Smith" Sample.two.
Proof.
  apply (query_case_is_ignored Sample.two "SMITH" "Smith"). reflexivity.
Defined.

Lemma some_unit_app (p : ascii -> bool) (a b : string) :
  some_unit p (a ++ b) = some_unit p a || some_unit p b.
Proof.
  induction a as [| c a IH]; simpl; [reflexivity |].
  now rewrite IH, orb_assoc.
Qed.

Lemma some_unit_occurs (p : ascii -> bool) (t s : string) :
  occurs_in t s -> some_unit p t = true -> some_unit p s = true.
Proof.
  intros (a & b & ->) Ht. rewrite !some_unit_app, Ht.
  now rewrite orb_true_r.
Qed.

Lemma letter_lowered (c : ascii) :
  is_letter c = true -> is_lower_letter (JS.lower_unit c) = true.
Proof. destruct c as [[] [] [] [] [] [] [] []]; vm_compute; congruence. Qed.

Lemma letter_not_white (c : ascii) :
  is_letter c = true -> JS.isWhiteSpace c = false.
Proof. destruct c as [[] [] [] [] [] [] [] []]; vm_compute; congruence. Qed.

Lemma some_letter_lowered (q : string) :
  some_unit is_letter q = true ->
  some_unit is_lower_letter (JS.toLowerCase q) = true.
Proof.
  induction q as [| c q IH]; simpl; [discriminate |].
  intros H. apply orb_true_iff in H. destruct H as [H | H].
  - now rewrite (letter_lowered c H).
  - rewrite (IH H). apply orb_true_r.
Qed.

Lemma some_letter_not_blank (q : string) :
  some_unit is_letter q = true -> blank q = false.
Proof.
  induction q as [| c q IH]; simpl; [discriminate |].
  intros H. apply orb_true_iff in H. destruct H as [H | H].
  - now rewrite (letter_not_white c H).
  - rewrite (IH H). apply andb_false_r.
Qed.

(** X11.  The phone is compared as it is with the lowercased query, so a
    query with one of the letters A to Z or a to z in it never matches a
    phone that has none of the small letters a to z: a record in the
    view for such a query is there for its first name, last name, user
    name or email. *)
Theorem phone_letters_are_not_found
    (s : ContactManager) (q : string) (c : Contact) :
  some_unit is_letter q = true ->
  some_unit is_lower_letter (phone c) = false ->
  JS.includes (phone c) (JS.toLowerCase q) = false
  /\ (In c (filteredContacts (searchContacts q s)) ->
      occurs_in (JS.toLowerCase q) (JS.toLowerCase (firstName c))
      \/ occurs_in (JS.toLowerCase q) (JS.toLowerCase (lastName c))
      \/ occurs_in (JS.toLowerCase q) (JS.toLowerCase (userName c))
      \/ occurs_in (JS.toLowerCase q) (JS.toLowerCase (email c))).
Proof.
  intros Hq Hp.
  assert (Hphone : JS.includes (phone c) (JS.toLowerCase q) = false).
  { destruct (JS.includes (phone c) (JS.toLowerCase q)) eqn:Hi; [| reflexivity].
    apply includes_occurs in Hi.
    rewrite (some_unit_occurs _ _ _ Hi (some_letter_lowered q Hq)) in Hp.
    discriminate. }
  split; [exact Hphone |].
  unfold searchContacts.
  rewrite trim_falsy_iff, (some_letter_not_blank q Hq).
  cbn [filteredContacts set_filteredContacts].
  intros Hin. apply filter_In in Hin. destruct Hin as [_ Hm].
  apply matches_spec in Hm;
    [| apply blank_false_nonempty, some_letter_not_blank, Hq].
  destruct Hm as [H | [H | [H | [H | H]]]]; auto.
  apply includes_occurs in H. congruence.
Qed.

Lemma phone_letters_are_not_found_witness :
  JS.includes (phone (fst (addContact Sample.clock1 Sample.jane emptyStore)))
    (JS.toLowerCase "Call") = false
  /\ (In (fst (addContact Sample.clock1 Sample.jane emptyStore))
        (filteredContacts (searchContacts "Call" Sample.two)) ->
      occurs_in (JS.toLowerCase "Call")
        (JS.toLowerCase (firstName (fst (addContact Sample.clock1 Sample.jane emptyStore))))
      \/ occurs_in (JS.toLowerCase "Call")
           (JS.toLowerCase (lastName (fst (addContact Sample.clock1 Sample.jane emptyStore))))
      \/ occurs_in (JS.toLowerCase "Call")
           (JS.toLowerCase (userName (fst (addContact Sample.clock1 Sample.jane emptyStore))))
      \/ occurs_in (JS.toLowerCase "Call")
           (JS.toLowerCase (email (fst (addContact Sample.clock1 Sample.jane emptyStore))))).
Proof.
  apply (phone_letters_are_not_found Sample.two "Call"
           (fst (addContact Sample.clock1 Sample.jane emptyStore)));
    reflexivity.
Defined.

(** ** The form *)

Lemma truthy_trim (s : string) : JS.truthy (JS.trim s) = negb (blank s).
Proof. rewrite <- trim_falsy_iff. now rewrite negb_involutive. Qed.

Lemma trim_filled (s : string) : blank s = false -> JS.trim s <> "".
Proof.
  intros Hb. apply truthy_true_iff. now rewrite truthy_trim, Hb.
Qed.

Lemma trimEnd_again (s : string) : JS.trimEnd (JS.trimEnd s) = JS.trimEnd s.
Proof.
  induction s as [| c s IH]; [reflexivity |].
  cbn [JS.trimEnd]. destruct (JS.trimEnd s) as [| d r] eqn:He.
  - destruct (JS.isWhiteSpace c) eqn:Hc; [reflexivity |].
    cbn [JS.trimEnd]. now rewrite Hc.
  - cbn [JS.trimEnd] in IH |- *.
    change (JS.trimEnd (String c (String d r)))
      with (match JS.trimEnd (String d r) with
            | EmptyString =>
                if JS.isWhiteSpace c then EmptyString else String c EmptyString
            | String d' r' => String c (String d' r')
            end).
    now rewrite IH.
Qed.

Lemma trimEnd_head (c : ascii) (r : string) :
  JS.isWhiteSpace c = false ->
  exists r', JS.trimEnd (String c r) = String c r'.
Proof.
  intros Hc. cbn [JS.trimEnd]. destruct (JS.trimEnd r).
  - rewrite Hc. now exists EmptyString.
  - eexists. reflexivity.
Qed.

(** Trimming twice is trimming once. *)
Lemma trim_again (s : string) : trimmed (JS.trim s).
Proof.
  unfold trimmed, JS.trim.
  destruct (JS.trimStart s) as [| c r] eqn:Hs; [reflexivity |].
  pose proof (trimStart_head s c r Hs) as Hc.
  destruct (trimEnd_head c r Hc) as [r' Hr].
  rewrite Hr. cbn [JS.trimStart]. rewrite Hc, <- Hr.
  apply trimEnd_again.
Qed.

Lemma trimmed_blank_empty (s : string) : trimmed s -> blank s = true -> s = "".
Proof.
  unfold trimmed. intros Ht Hb.
  assert (H : JS.truthy (JS.trim s) = false) by (now rewrite truthy_trim, Hb).
  apply truthy_false_iff in H. congruence.
Qed.

Lemma or_else_same (s : string) : JS.or_else (Some s) s = s.
Proof. destruct s; reflexivity. Qed.

Lemma or_else_trim (input old : string) :
  JS.or_else (Some (JS.trim input)) old
  = if blank input then old else JS.trim input.
Proof.
  unfold JS.or_else. rewrite truthy_trim. now destruct (blank input).
Qed.

Lemma saveContact_filled (h : Host) (k : Clock) (a : App) :
  filled_in (page a) ->
  UI.saveContact h k a =
  UI.resetForm
    (UI.closeModal
       match currentEditId (manager a) with
       | Some i =>
           if truthy_number i then
             {| manager :=
                  set_currentEditId
                    (manager (snd (UI.updateContact h i
                                     (asPartial (UI.readForm (page a))) a)))
                    None;
                page := page (snd (UI.updateContact h i
                                     (asPartial (UI.readForm (page a))) a)) |}
           else snd (UI.addContact h k (UI.readForm (page a)) a)
       | None => snd (UI.addContact h k (UI.readForm (page a)) a)
       end).
Proof.
  intros (H1 & H2 & H3 & H4). unfold UI.saveContact.
  cbn [UI.readForm form_firstName form_lastName form_userName form_phone].
  rewrite !truthy_trim, H1, H2, H3, H4. reflexivity.
Qed.

Lemma saveContact_not_editing (h : Host) (k : Clock) (a : App) :
  filled_in (page a) -> not_editing (manager a) ->
  UI.saveContact h k a =
  UI.resetForm (UI.closeModal (snd (UI.addContact h k (UI.readForm (page a)) a))).
Proof.
  intros Hf He. rewrite (saveContact_filled h k a Hf).
  unfold not_editing in He. destruct (currentEditId (manager a)) as [i |].
  - now rewrite He.
  - reflexivity.
Qed.

Lemma ui_addContact_spec (h : Host) (k : Clock) (data : ContactFormData) (a : App) :
  UI.addContact h k data a =
  (fst (addContact k data (manager a)),
   {| manager := snd (addContact k data (manager a));
      page := UI.render h (snd (addContact k data (manager a))) (page a) |}).
Proof.
  unfold UI.addContact. now destruct (addContact k data (manager a)).
Qed.

Lemma ui_updateContact_missing (h : Host) (i : JS.number)
    (data : PartialFormData) (a : App) :
  none_of (has_id i) (contacts (manager a)) ->
  UI.updateContact h i data a = (None, a).
Proof.
  intros Hn. unfold UI.updateContact.
  rewrite (updateContact_missing (manager a) i data Hn). now destruct a.
Qed.

Lemma ui_updateContact_found (h : Host) (i : JS.number) (data : PartialFormData)
    (a : App) (before : list Contact) (c : Contact) (after : list Contact) :
  contacts (manager a) = before ++ c :: after ->
  none_of (has_id i) before -> has_id i c = true ->
  UI.updateContact h i data a =
  (Some (update c data),
   {| manager := snd (updateContact i data (manager a));
      page := UI.render h (snd (updateContact i data (manager a))) (page a) |}).
Proof.
  intros Hs Hb Hc. unfold UI.updateContact.
  now rewrite (updateContact_found (manager a) i data before c after Hs Hb Hc).
Qed.

Lemma ui_deleteContact_missing (h : Host) (i : JS.number) (a : App) :
  none_of (has_id i) (contacts (manager a)) ->
  UI.deleteContact h i a = (false, a).
Proof.
  intros Hn. unfold UI.deleteContact.
  rewrite (deleteContact_missing (manager a) i Hn). now destruct a.
Qed.

Lemma ui_deleteContact_found (h : Host) (i : JS.number)
    (a : App) (before : list Contact) (c : Contact) (after : list Contact) :
  contacts (manager a) = before ++ c :: after ->
  none_of (has_id i) before -> has_id i c = true ->
  UI.deleteContact h i a =
  (true,
   {| manager := snd (deleteContact i (manager a));
      page := UI.render h (snd (deleteContact i (manager a))) (page a) |}).
Proof.
  intros Hs Hb Hc. unfold UI.deleteContact.
  now rewrite (deleteContact_found (manager a) i before c after Hs Hb Hc).
Qed.

(** X12.  When one of the four required inputs is empty or white space
    only, [saveContact] shows the alert and does nothing else: the
    manager, the form and the modal stay as they are. *)
Theorem saveContact_rejects_blank (h : Host) (k : Clock) (a : App) :
  blank (val_firstName (inputs (page a))) = true
  \/ blank (val_lastName (inputs (page a))) = true
  \/ blank (val_userName (inputs (page a))) = true
  \/ blank (val_phone (inputs (page a))) = true ->
  UI.saveContact h k a
  = {| manager := manager a; page := alert (page a) UI.requiredMessage |}.
Proof.
  intros H. unfold UI.saveContact.
  cbn [UI.readForm form_firstName form_lastName form_userName form_phone].
  rewrite !truthy_trim, !negb_involutive.
  destruct H as [-> | [-> | [-> | ->]]];
    rewrite ?orb_true_r; reflexivity.
Qed.

Lemma saveContact_rejects_blank_witness :
  UI.saveContact Demo.host Sample.clock3
    (UI.act Demo.host (UI.DoFill Demo.typedNoPhone) Demo.withJane)
  = {| manager := manager (UI.act Demo.host (UI.DoFill Demo.typedNoPhone) Demo.withJane);
       page := alert (page (UI.act Demo.host (UI.DoFill Demo.typedNoPhone) Demo.withJane))
                 UI.requiredMessage |}.
Proof.
  apply (saveContact_rejects_blank Demo.host Sample.clock3
           (UI.act Demo.host (UI.DoFill Demo.typedNoPhone) Demo.withJane)).
  right; right; right. reflexivity.
Defined.

(** X13.  With the required inputs filled in and no edit under way,
    [saveContact] appends one record made of the six inputs, trimmed,
    resets the view, persists, closes the modal and resets the form. *)
Theorem saveContact_adds (h : Host) (k : Clock) (a : App) :
  filled_in (page a) -> not_editing (manager a) ->
  exists c,
    contacts (manager (UI.saveContact h k a)) = contacts (manager a) ++ [c]
    /\ firstName c = JS.trim (val_firstName (inputs (page a)))
    /\ lastName c = JS.trim (val_lastName (inputs (page a)))
    /\ userName c = JS.trim (val_userName (inputs (page a)))
    /\ phone c = JS.trim (val_phone (inputs (page a)))
    /\ email c = JS.trim (val_email (inputs (page a)))
    /\ address c = JS.trim (val_address (inputs (page a)))
    /\ id c = drawn_id k
    /\ createdAt c = JS.DateAt (new_date k)
    /\ filteredContacts (manager (UI.saveContact h k a))
       = contacts (manager (UI.saveContact h k a))
    /\ localStorage (manager (UI.saveContact h k a))
       = Some (JSON.stringify (contacts (manager (UI.saveContact h k a))))
    /\ currentEditId (manager (UI.saveContact h k a)) = None
    /\ modalDisplay (page (UI.saveContact h k a)) = "none"
    /\ inputs (page (UI.saveContact h k a)) = defaults (page a).
Proof.
  intros Hf He. rewrite (saveContact_not_editing h k a Hf He).
  rewrite ui_addContact_spec, addContact_spec. cbv zeta. cbn [fst snd].
  eexists. split; [reflexivity |].
  cbn [firstName lastName userName phone email address id createdAt newContact
       UI.readForm form_firstName form_lastName form_userName form_phone
       form_email form_address JS.default_arg].
  repeat split.
  - unfold JS.or_else. now destruct (JS.trim (val_email (inputs (page a)))).
  - unfold JS.or_else. now destruct (JS.trim (val_address (inputs (page a)))).
  - unfold UI.render, UI.updateStats, UI.renderContacts.
    destruct (container (page a)), (emptyState (page a)), (contactCount (page a));
      cbn; repeat match goal with |- context [if ?b then _ else _] => destruct b end;
      reflexivity.
Qed.

Lemma saveContact_adds_witness :
  exists c,
    contacts (manager (UI.saveContact Demo.host Sample.clock3
                         (UI.act Demo.host (UI.DoFill Demo.typedBob) Demo.withJane)))
    = contacts (manager (UI.act Demo.host (UI.DoFill Demo.typedBob) Demo.withJane)) ++ [c]
    /\ firstName c = JS.trim (val_firstName (inputs (page (UI.act Demo.host (UI.DoFill Demo.typedBob) Demo.withJane))))
    /\ lastName c = JS.trim (val_lastName (inputs (page (UI.act Demo.host (UI.DoFill Demo.typedBob) Demo.withJane))))
    /\ userName c = JS.trim (val_userName (inputs (page (UI.act Demo.host (UI.DoFill Demo.typedBob) Demo.withJane))))
    /\ phone c = JS.trim (val_phone (inputs (page (UI.act Demo.host (UI.DoFill Demo.typedBob) Demo.withJane))))
    /\ email c = JS.trim (val_email (inputs (page (UI.act Demo.host (UI.DoFill Demo.typedBob) Demo.withJane))))
    /\ address c = JS.trim (val_address (inputs (page (UI.act Demo.host (UI.DoFill Demo.typedBob) Demo.withJane))))
    /\ id c = drawn_id Sample.clock3
    /\ createdAt c = JS.DateAt (new_date Sample.clock3)
    /\ filteredContacts (manager (UI.saveContact Demo.host Sample.clock3
                                    (UI.act Demo.host (UI.DoFill Demo.typedBob) Demo.withJane)))
       = contacts (manager (UI.saveContact Demo.host Sample.clock3
                              (UI.act Demo.host (UI.DoFill Demo.typedBob) Demo.withJane)))
    /\ localStorage (manager (UI.saveContact Demo.host Sample.clock3
                                (UI.act Demo.host (UI.DoFill Demo.typedBob) Demo.withJane)))
       = Some (JSON.stringify
                 (contacts (manager (UI.saveContact Demo.host Sample.clock3
                                       (UI.act Demo.host (UI.DoFill Demo.typedBob) Demo.withJane)))))
    /\ currentEditId (manager (UI.saveContact Demo.host Sample.clock3
                                 (UI.act Demo.host (UI.DoFill Demo.typedBob) Demo.withJane)))
       = None
    /\ modalDisplay (page (UI.saveContact Demo.host Sample.clock3
                             (UI.act Demo.host (UI.DoFill Demo.typedBob) Demo.withJane)))
       = "none"
    /\ inputs (page (UI.saveContact Demo.host Sample.clock3
                       (UI.act Demo.host (UI.DoFill Demo.typedBob) Demo.withJane)))
       = defaults (page (UI.act Demo.host (UI.DoFill Demo.typedBob) Demo.withJane)).
Proof.
  apply (saveContact_adds Demo.host Sample.clock3
           (UI.act Demo.host (UI.DoFill Demo.typedBob) Demo.withJane)).
  - repeat split.
  - exact I.
Defined.

Lemma saveContact_blank (h : Host) (k : Clock) (a : App) :
  blank (val_firstName (inputs (page a))) = true
  \/ blank (val_lastName (inputs (page a))) = true
  \/ blank (val_userName (inputs (page a))) = true
  \/ blank (val_phone (inputs (page a))) = true ->
  UI.saveContact h k a
  = {| manager := manager a; page := alert (page a) UI.requiredMessage |}.
Proof.
  intros H. unfold UI.saveContact.
  cbn [UI.readForm form_firstName form_lastName form_userName form_phone].
  rewrite !truthy_trim, !negb_involutive.
  destruct H as [-> | [-> | [-> | ->]]];
    rewrite ?orb_true_r; reflexivity.
Qed.

Lemma filled_or_blank (p : Page) :
  filled_in p
  \/ (blank (val_firstName (inputs p)) = true
      \/ blank (val_lastName (inputs p)) = true
      \/ blank (val_userName (inputs p)) = true
      \/ blank (val_phone (inputs p)) = true).
Proof.
  unfold filled_in.
  destruct (blank (val_firstName (inputs p))); [auto |].
  destruct (blank (val_lastName (inputs p))); [auto |].
  destruct (blank (val_userName (inputs p))); [auto |].
  destruct (blank (val_phone (inputs p))); auto 6.
Qed.

Lemma saveContact_editing_found (h : Host) (k : Clock) (a : App) (i : JS.number)
    (before : list Contact) (c : Contact) (after : list Contact) :
  filled_in (page a) ->
  currentEditId (manager a) = Some i -> truthy_number i = true ->
  contacts (manager a) = before ++ c :: after ->
  none_of (has_id i) before -> has_id i c = true ->
  manager (UI.saveContact h k a)
  = {| contacts := before ++ update c (asPartial (UI.readForm (page a))) :: after;
       currentEditId := None;
       filteredContacts := before ++ update c (asPartial (UI.readForm (page a))) :: after;
       localStorage :=
         Some (JSON.stringify
                 (before ++ update c (asPartial (UI.readForm (page a))) :: after)) |}
  /\ modalDisplay (page (UI.saveContact h k a)) = "none"
  /\ inputs (page (UI.saveContact h k a)) = defaults (page a).
Proof.
  intros Hf He Ht Hs Hb Hc. rewrite (saveContact_filled h k a Hf), He, Ht.
  rewrite (ui_updateContact_found h i _ a before c after Hs Hb Hc).
  rewrite (updateContact_found (manager a) i _ before c after Hs Hb Hc).
  cbn [snd manager page UI.resetForm UI.closeModal].
  split; [reflexivity |].
  unfold UI.render, UI.updateStats, UI.renderContacts.
  destruct (container (page a)), (emptyState (page a)), (contactCount (page a));
    cbn; repeat match goal with |- context [if ?b then _ else _] => destruct b end;
    split; reflexivity.
Qed.

Lemma saveContact_editing_missing (h : Host) (k : Clock) (a : App) (i : JS.number) :
  filled_in (page a) ->
  currentEditId (manager a) = Some i -> truthy_number i = true ->
  none_of (has_id i) (contacts (manager a)) ->
  UI.saveContact h k a
  = {| manager := set_currentEditId (manager a) None;
       page := set_inputs (set_modalDisplay (page a) "none") (defaults (page a)) |}.
Proof.
  intros Hf He Ht Hn. rewrite (saveContact_filled h k a Hf), He, Ht.
  rewrite (ui_updateContact_missing h i _ a Hn). reflexivity.
Qed.

Lemma update_from_form (c : Contact) (p : Page) :
  filled_in p ->
  update c (asPartial (UI.readForm p))
  = {| id := id c;
       firstName := JS.trim (val_firstName (inputs p));
       lastName := JS.trim (val_lastName (inputs p));
       userName := JS.trim (val_userName (inputs p));
       phone := JS.trim (val_phone (inputs p));
       email := if blank (val_email (inputs p)) then email c
                else JS.trim (val_email (inputs p));
       address := if blank (val_address (inputs p)) then address c
                  else JS.trim (val_address (inputs p));
       createdAt := createdAt c |}.
Proof.
  intros (H1 & H2 & H3 & H4). unfold update, asPartial, UI.readForm.
  cbn [part_firstName part_lastName part_userName part_phone part_email
       part_address form_firstName form_lastName form_userName form_phone
       form_email form_address].
  rewrite !or_else_trim, H1, H2, H3, H4. reflexivity.
Qed.

(** X14.  With the required inputs filled in and an edit under way on a
    record that is there, [saveContact] changes that record in place:
    its four required fields become the trimmed inputs; its email and its
    address become the trimmed input when that is not blank and stay as
    they are otherwise, so neither can be emptied through the form.  Id
    and creation date stay, no record is added, and the edit ends. *)
Theorem saveContact_edits_in_place (h : Host) (k : Clock) (a : App) (i : JS.number)
    (before : list Contact) (c : Contact) (after : list Contact) :
  filled_in (page a) ->
  currentEditId (manager a) = Some i -> truthy_number i = true ->
  contacts (manager a) = before ++ c :: after ->
  none_of (has_id i) before -> has_id i c = true ->
  exists c',
    contacts (manager (UI.saveContact h k a)) = before ++ c' :: after
    /\ id c' = id c /\ createdAt c' = createdAt c
    /\ firstName c' = JS.trim (val_firstName (inputs (page a)))
    /\ lastName c' = JS.trim (val_lastName (inputs (page a)))
    /\ userName c' = JS.trim (val_userName (inputs (page a)))
    /\ phone c' = JS.trim (val_phone (inputs (page a)))
    /\ email c' = (if blank (val_email (inputs (page a))) then email c
                   else JS.trim (val_email (inputs (page a))))
    /\ address c' = (if blank (val_address (inputs (page a))) then address c
                     else JS.trim (val_address (inputs (page a))))
    /\ filteredContacts (manager (UI.saveContact h k a))
       = contacts (manager (UI.saveContact h k a))
    /\ currentEditId (manager (UI.saveContact h k a)) = None
    /\ modalDisplay (page (UI.saveContact h k a)) = "none".
Proof.
  intros Hf He Ht Hs Hb Hc.
  destruct (saveContact_editing_found h k a i before c after Hf He Ht Hs Hb Hc)
    as (Hm & Hd & _).
  rewrite Hm, Hd, (update_from_form c (page a) Hf).
  eexists. split; [reflexivity |]. repeat split.
Qed.

(** X15.  When the record under edit is gone, a [saveContact] with the
    required inputs filled in changes no record and adds none; it ends
    the edit, closes the modal and resets the form, and tells the user
    nothing: no alert, no error, nothing rendered. *)
Theorem saveContact_drops_stale_edit (h : Host) (k : Clock) (a : App) (i : JS.number) :
  filled_in (page a) ->
  currentEditId (manager a) = Some i -> truthy_number i = true ->
  (forall c, In c (contacts (manager a)) -> JS.strict_eq (id c) i = false) ->
  UI.saveContact h k a
  = {| manager := set_currentEditId (manager a) None;
       page := set_inputs (set_modalDisplay (page a) "none") (defaults (page a)) |}.
Proof.
  intros Hf He Ht Hn. apply (saveContact_editing_missing h k a i Hf He Ht).
  now apply (none_of_in (has_id i)).
Qed.

Lemma openEditModal_found (h : Host) (i : JS.number) (a : App) (c : Contact) :
  find (has_id i) (contacts (manager a)) = Some c ->
  UI.openEditModal h i a
  = {| manager := set_currentEditId (manager a) (Some i);
       page :=
         set_modalDisplay
           (set_inputs (set_modalTitle (page a) "Edit Contact")
              (held h (fieldsOf c)))
           "flex" |}.
Proof. intros H. unfold UI.openEditModal. now rewrite H. Qed.

Lemma update_unchanged (c : Contact) (p : Page) :
  filled_in p ->
  inputs p = fieldsOf c ->
  trimmed (firstName c) -> trimmed (lastName c) -> trimmed (userName c) ->
  trimmed (phone c) -> trimmed (email c) -> trimmed (address c) ->
  update c (asPartial (UI.readForm p)) = c.
Proof.
  intros Hf E T1 T2 T3 T4 T5 T6.
  rewrite (update_from_form c p Hf), E.
  cbn [fieldsOf val_firstName val_lastName val_userName val_phone val_email
       val_address].
  unfold trimmed in *. rewrite T1, T2, T3, T4, T5, T6.
  destruct c as [i fn ln un ph em ad d].
  cbn [id firstName lastName userName phone email address createdAt].
  destruct (blank em), (blank ad); reflexivity.
Qed.

(** X16.  Opening a record for edit and saving at once leaves [contacts]
    as they were, when the inputs hold the six fields of the record as
    they were assigned (for text inputs: the fields have no line break),
    the six fields are trimmed and the id of the record is a number other
    than zero. *)
Theorem edit_without_change_keeps_contacts
    (h : Host) (k : Clock) (a : App) (i : JS.number) (c : Contact) :
  find (has_id i) (contacts (manager a)) = Some c ->
  truthy_number i = true ->
  held h (fieldsOf c) = fieldsOf c ->
  trimmed (firstName c) -> trimmed (lastName c) -> trimmed (userName c) ->
  trimmed (phone c) -> trimmed (email c) -> trimmed (address c) ->
  contacts (manager (UI.saveContact h k (UI.openEditModal h i a)))
  = contacts (manager a).
Proof.
  intros Hfind Ht Hheld T1 T2 T3 T4 T5 T6.
  rewrite (openEditModal_found h i a c Hfind), Hheld.
  destruct (find_some_split _ _ _ Hfind) as (before & after & Hs & Hb & Hc).
  match goal with |- contacts (manager (UI.saveContact h k ?a1)) = _ =>
    destruct (filled_or_blank (page a1)) as [Hf | Hblank];
    [ destruct (saveContact_editing_found h k a1 i before c after Hf
                  eq_refl Ht Hs Hb Hc) as (Hm & _);
      rewrite Hm; cbn [contacts];
      rewrite (update_unchanged c (page a1) Hf); auto
    | rewrite (saveContact_blank h k a1 Hblank); reflexivity ]
  end.
Qed.

Lemma saveContact_edits_in_place_witness :
  exists c',
    contacts (manager (UI.saveContact Demo.host Sample.clock3 Demo.editingJane))
    = [] ++ c' :: []
    /\ id c' = id Demo.janeRecord /\ createdAt c' = createdAt Demo.janeRecord
    /\ firstName c' = JS.trim (val_firstName (inputs (page Demo.editingJane)))
    /\ lastName c' = JS.trim (val_lastName (inputs (page Demo.editingJane)))
    /\ userName c' = JS.trim (val_userName (inputs (page Demo.editingJane)))
    /\ phone c' = JS.trim (val_phone (inputs (page Demo.editingJane)))
    /\ email c' = (if blank (val_email (inputs (page Demo.editingJane)))
                   then email Demo.janeRecord
                   else JS.trim (val_email (inputs (page Demo.editingJane))))
    /\ address c' = (if blank (val_address (inputs (page Demo.editingJane)))
                     then address Demo.janeRecord
                     else JS.trim (val_address (inputs (page Demo.editingJane))))
    /\ filteredContacts (manager (UI.saveContact Demo.host Sample.clock3 Demo.editingJane))
       = contacts (manager (UI.saveContact Demo.host Sample.clock3 Demo.editingJane))
    /\ currentEditId (manager (UI.saveContact Demo.host Sample.clock3 Demo.editingJane))
       = None
    /\ modalDisplay (page (UI.saveContact Demo.host Sample.clock3 Demo.editingJane))
       = "none".
Proof.
  apply (saveContact_edits_in_place Demo.host Sample.clock3 Demo.editingJane
           Sample.janeId [] Demo.janeRecord []).
  - repeat split.
  - reflexivity.
  - reflexivity.
  - reflexivity.
  - constructor.
  - reflexivity.
Defined.

Lemma saveContact_drops_stale_edit_witness :
  UI.saveContact Demo.host Sample.clock3 Demo.staleEdit
  = {| manager := set_currentEditId (manager Demo.staleEdit) None;
       page := set_inputs (set_modalDisplay (page Demo.staleEdit) "none")
                 (defaults (page Demo.staleEdit)) |}.
Proof.
  apply (saveContact_drops_stale_edit Demo.host Sample.clock3 Demo.staleEdit
           Sample.janeId).
  - repeat split.
  - reflexivity.
  - reflexivity.
  - intros c Hc. vm_compute in Hc. contradiction.
Defined.

Lemma edit_without_change_keeps_contacts_witness :
  contacts (manager (UI.saveContact Demo.host Sample.clock3
                       (UI.openEditModal Demo.host Sample.janeId Demo.withJane)))
  = contacts (manager Demo.withJane).
Proof.
  apply (edit_without_change_keeps_contacts Demo.host Sample.clock3 Demo.withJane
           Sample.janeId Demo.janeRecord);
    reflexivity.
Defined.

(** ** Records made through the page *)

Lemma well_formed_new (k : Clock) (p : Page) :
  filled_in p ->
  well_formed (fst (addContact k (UI.readForm p) emptyStore)).
Proof.
  intros (H1 & H2 & H3 & H4). rewrite addContact_spec. cbv zeta.
  unfold well_formed.
  cbn [fst firstName lastName userName phone email address newContact
       UI.readForm form_firstName form_lastName form_userName form_phone
       form_email form_address JS.default_arg].
  rewrite !or_else_trim.
  repeat split; try (now apply trim_filled); try apply trim_again.
  - destruct (blank (val_email (inputs p))); [reflexivity | apply trim_again].
  - destruct (blank (val_address (inputs p))); [reflexivity | apply trim_again].
Qed.

Lemma well_formed_update (c : Contact) (p : Page) :
  filled_in p -> well_formed c ->
  well_formed (update c (asPartial (UI.readForm p))).
Proof.
  intros Hf Hc. rewrite (update_from_form c p Hf).
  destruct Hf as (H1 & H2 & H3 & H4).
  destruct Hc as (_ & _ & _ & _ & _ & _ & _ & _ & T5 & T6).
  unfold well_formed.
  cbn [firstName lastName userName phone email address].
  repeat split; try (now apply trim_filled); try apply trim_again.
  - destruct (blank (val_email (inputs p))); [exact T5 | apply trim_again].
  - destruct (blank (val_address (inputs p))); [exact T6 | apply trim_again].
Qed.

Lemma well_formed_saveContact (h : Host) (k : Clock) (a : App) :
  Forall well_formed (contacts (manager a)) ->
  Forall well_formed (contacts (manager (UI.saveContact h k a))).
Proof.
  intros Hw.
  destruct (filled_or_blank (page a)) as [Hf | Hblank];
    [| now rewrite (saveContact_blank h k a Hblank)].
  assert (Hadd : Forall well_formed
                   (contacts (manager (UI.resetForm (UI.closeModal
                      (snd (UI.addContact h k (UI.readForm (page a)) a))))))).
  { rewrite ui_addContact_spec, addContact_spec. cbv zeta.
    cbn [snd fst manager contacts UI.resetForm UI.closeModal set_currentEditId].
    apply Forall_app. split; [exact Hw |]. constructor; [| constructor].
    exact (well_formed_new k (page a) Hf). }
  rewrite (saveContact_filled h k a Hf).
  destruct (currentEditId (manager a)) as [i |] eqn:He; [| exact Hadd].
  destruct (truthy_number i) eqn:Ht; [| exact Hadd].
  destruct (first_or_none (has_id i) (contacts (manager a)))
    as [Hn | (before & c & after & Hs & Hb & Hc)].
  - rewrite (ui_updateContact_missing h i _ a Hn). exact Hw.
  - rewrite (ui_updateContact_found h i _ a before c after Hs Hb Hc).
    rewrite (updateContact_found (manager a) i _ before c after Hs Hb Hc).
    cbn [snd manager contacts UI.resetForm UI.closeModal set_currentEditId].
    rewrite Hs in Hw. apply Forall_app in Hw. destruct Hw as [W1 W2].
    inversion W2; subst. apply Forall_app. split; [exact W1 |].
    constructor; [now apply well_formed_update | assumption].
Qed.

Lemma well_formed_confirmDelete (h : Host) (answer : bool) (i : JS.number) (a : App) :
  Forall well_formed (contacts (manager a)) ->
  Forall well_formed (contacts (manager (UI.confirmDelete h answer i a))).
Proof.
  intros Hw. unfold UI.confirmDelete.
  destruct (find (has_id i) (contacts (manager a))) as [c |] eqn:Hfind;
    [| exact Hw].
  destruct answer; [| exact Hw].
  destruct (find_some_split _ _ _ Hfind) as (before & after & Hs & Hb & Hc).
  match goal with |- context [UI.deleteContact h i ?a1] =>
    rewrite (ui_deleteContact_found h i a1 before c after Hs Hb Hc);
    rewrite (deleteContact_found (manager a1) i before c after Hs Hb Hc)
  end.
  cbn [snd manager contacts].
  rewrite Hs in Hw. apply Forall_app in Hw. destruct Hw as [W1 W2].
  inversion W2; subst. apply Forall_app. now split.
Qed.

Lemma well_formed_act (h : Host) (x : UI.Action) (a : App) :
  from_page x = true ->
  Forall well_formed (contacts (manager a)) ->
  Forall well_formed (contacts (manager (UI.act h x a))).
Proof.
  intros Hx Hw. destruct x; try discriminate; cbn [UI.act].
  - unfold UI.searchContacts, searchContacts. cbn [manager].
    destruct (negb (JS.truthy (JS.trim query))); exact Hw.
  - now apply well_formed_saveContact.
  - exact Hw.
  - unfold UI.openEditModal.
    destruct (find (has_id i) (contacts (manager a))); exact Hw.
  - exact Hw.
  - now apply well_formed_confirmDelete.
  - exact Hw.
Qed.

(** X17.  Whatever is done at the page (search, open, type, save, close,
    confirm a delete), the records keep their four required fields
    non-empty and all six fields trimmed, if they had them so before. *)
Theorem page_keeps_records_well_formed (h : Host) (actions : list UI.Action) (a : App) :
  forallb from_page actions = true ->
  Forall well_formed (contacts (manager a)) ->
  Forall well_formed (contacts (manager (UI.run h actions a))).
Proof.
  revert a. induction actions as [| x actions IH]; intros a Hp Hw; [exact Hw |].
  cbn [forallb] in Hp. apply andb_true_iff in Hp. destruct Hp as [Hx Hp].
  cbn [UI.run fold_left]. apply IH; [exact Hp |].
  now apply well_formed_act.
Qed.

Lemma page_keeps_records_well_formed_witness :
  Forall well_formed (contacts (manager (UI.run Demo.host Demo.session Demo.start))).
Proof.
  apply (page_keeps_records_well_formed Demo.host Demo.session Demo.start).
  - reflexivity.
  - constructor.
Defined.

(** X18.  Opening the add form, typing and saving appends a record made
    of what was typed, trimmed, whatever edit was under way before: the
    add form never updates a record. *)
Theorem add_form_always_adds (h : Host) (k : Clock) (a : App) (v : FormValues) :
  blank (val_firstName v) = false -> blank (val_lastName v) = false ->
  blank (val_userName v) = false -> blank (val_phone v) = false ->
  exists c,
    contacts (manager (UI.run h [UI.DoOpenAdd; UI.DoFill v; UI.DoSave k] a))
    = contacts (manager a) ++ [c]
    /\ firstName c = JS.trim (val_firstName v)
    /\ lastName c = JS.trim (val_lastName v)
    /\ userName c = JS.trim (val_userName v)
    /\ phone c = JS.trim (val_phone v)
    /\ email c = JS.trim (val_email v)
    /\ address c = JS.trim (val_address v)
    /\ id c = drawn_id k.
Proof.
  intros H1 H2 H3 H4. cbn [UI.run fold_left UI.act].
  match goal with |- context [UI.saveContact h k ?a1] =>
    rewrite (saveContact_not_editing h k a1 (conj H1 (conj H2 (conj H3 H4))) I)
  end.
  rewrite ui_addContact_spec, addContact_spec. cbv zeta. cbn [fst snd].
  eexists. split; [reflexivity |].
  cbn [firstName lastName userName phone email address id newContact
       UI.readForm form_firstName form_lastName form_userName form_phone
       form_email form_address JS.default_arg page inputs set_inputs].
  repeat split.
  - unfold JS.or_else. now destruct (JS.trim (val_email v)).
  - unfold JS.or_else. now destruct (JS.trim (val_address v)).
Qed.

Lemma add_form_always_adds_witness :
  exists c,
    contacts (manager (UI.run Demo.host
                         [UI.DoOpenAdd; UI.DoFill Demo.typedBob; UI.DoSave Sample.clock3]
                         Demo.editingJane))
    = contacts (manager Demo.editingJane) ++ [c]
    /\ firstName c = JS.trim (val_firstName Demo.typedBob)
    /\ lastName c = JS.trim (val_lastName Demo.typedBob)
    /\ userName c = JS.trim (val_userName Demo.typedBob)
    /\ phone c = JS.trim (val_phone Demo.typedBob)
    /\ email c = JS.trim (val_email Demo.typedBob)
    /\ address c = JS.trim (val_address Demo.typedBob)
    /\ id c = drawn_id Sample.clock3.
Proof.
  apply (add_form_always_adds Demo.host Sample.clock3 Demo.editingJane Demo.typedBob);
    reflexivity.
Defined.

(** ** Rendering *)

Lemma render_keeps_session (h : Host) (m : ContactManager) (p : Page) :
  inputs (UI.render h m p) = inputs p
  /\ defaults (UI.render h m p) = defaults p
  /\ modalTitle (UI.render h m p) = modalTitle p
  /\ modalDisplay (UI.render h m p) = modalDisplay p
  /\ alerts (UI.render h m p) = alerts p
  /\ prompts (UI.render h m p) = prompts p.
Proof.
  unfold UI.render, UI.updateStats, UI.renderContacts.
  destruct (container p), (emptyState p), (contactCount p);
    cbn; repeat match goal with |- context [if ?b then _ else _] => destruct b end;
    repeat split.
Qed.

(** X19.  [confirmDelete] asks before it deletes, naming the record, and
    asks nothing when no record has the id.  A refusal leaves the manager
    as it was; a consent does what [deleteContact] does. *)
Theorem confirmDelete_asks_first (h : Host) (answer : bool) (i : JS.number) (a : App) :
  ((forall c, In c (contacts (manager a)) -> JS.strict_eq (id c) i = false) ->
   UI.confirmDelete h answer i a = a)
  /\ (forall c, find (has_id i) (contacts (manager a)) = Some c ->
        prompts (page (UI.confirmDelete h answer i a))
        = prompts (page a) ++ [UI.confirmMessage c]
        /\ (answer = false -> manager (UI.confirmDelete h answer i a) = manager a)
        /\ (answer = true ->
            fst (deleteContact i (manager a)) = true
            /\ manager (UI.confirmDelete h answer i a)
               = snd (deleteContact i (manager a)))).
Proof.
  split.
  - intros Hn. apply (none_of_in (has_id i)) in Hn.
    unfold UI.confirmDelete. now rewrite (find_none_of _ _ Hn).
  - intros c Hfind. unfold UI.confirmDelete. rewrite Hfind.
    destruct (find_some_split _ _ _ Hfind) as (before & after & Hs & Hb & Hc).
    destruct answer.
    + match goal with |- context [UI.deleteContact h i ?a1] =>
        rewrite (ui_deleteContact_found h i a1 before c after Hs Hb Hc)
      end.
      cbn [snd page manager].
      rewrite (deleteContact_found (manager a) i before c after Hs Hb Hc).
      split; [apply render_keeps_session |].
      split; [discriminate | intros _; split; reflexivity].
    + split; [reflexivity |]. split; [reflexivity | discriminate].
Qed.

Lemma cards_nil (h : Host) : UI.cards h [] = "".
Proof. reflexivity. Qed.

Lemma render_shows (h : Host) (m : ContactManager) (p : Page) :
  shows h {| manager := m; page := UI.render h m p |}.
Proof.
  unfold shows, UI.render, UI.updateStats, UI.renderContacts.
  cbn [manager page].
  destruct p as [i d t md al pr [html |] [disp |] [cnt |] er];
    destruct (filteredContacts m) eqn:Hf; cbn;
    (split; [intros H1 H2; try congruence; auto | intros H1; congruence]).
Qed.

Lemma shows_same (h : Host) (a a' : App) :
  container (page a') = container (page a) ->
  emptyState (page a') = emptyState (page a) ->
  contactCount (page a') = contactCount (page a) ->
  filteredContacts (manager a') = filteredContacts (manager a) ->
  contacts (manager a') = contacts (manager a) ->
  shows h a -> shows h a'.
Proof.
  unfold shows. intros -> -> -> -> ->. auto.
Qed.

Lemma renderContacts_shows (h : Host) (m : ContactManager) (a : App) :
  contacts m = contacts (manager a) ->
  shows h a ->
  shows h {| manager := m; page := UI.renderContacts h m (page a) |}.
Proof.
  intros Hc (_ & Hcount). unfold shows, UI.renderContacts in *.
  cbn [manager page]. rewrite Hc.
  destruct (page a) as [i d t md al pr [html |] [disp |] cnt er];
    destruct (filteredContacts m) eqn:Hf; cbn in *;
    (split; [intros H1 H2; try congruence; auto | exact Hcount]).
Qed.

Lemma shows_saveContact (h : Host) (k : Clock) (a : App) :
  shows h a -> shows h (UI.saveContact h k a).
Proof.
  intros Hsh.
  destruct (filled_or_blank (page a)) as [Hf | Hblank];
    [| rewrite (saveContact_blank h k a Hblank);
       now apply (shows_same h a)].
  assert (Hadd : shows h (UI.resetForm (UI.closeModal
                    (snd (UI.addContact h k (UI.readForm (page a)) a))))).
  { rewrite ui_addContact_spec. cbn [snd].
    apply (shows_same h
             {| manager := snd (addContact k (UI.readForm (page a)) (manager a));
                page := UI.render h
                          (snd (addContact k (UI.readForm (page a)) (manager a)))
                          (page a) |});
      try reflexivity.
    apply render_shows. }
  rewrite (saveContact_filled h k a Hf).
  destruct (currentEditId (manager a)) as [i |]; [| exact Hadd].
  destruct (truthy_number i); [| exact Hadd].
  destruct (first_or_none (has_id i) (contacts (manager a)))
    as [Hn | (before & c & after & Hs & Hb & Hc)].
  - rewrite (ui_updateContact_missing h i _ a Hn).
    now apply (shows_same h a).
  - rewrite (ui_updateContact_found h i _ a before c after Hs Hb Hc).
    cbn [snd].
    apply (shows_same h
             {| manager := snd (updateContact i (asPartial (UI.readForm (page a)))
                                  (manager a));
                page := UI.render h
                          (snd (updateContact i (asPartial (UI.readForm (page a)))
                                  (manager a)))
                          (page a) |});
      try reflexivity.
    apply render_shows.
Qed.

Lemma shows_act (h : Host) (x : UI.Action) (a : App) :
  shows h a -> shows h (UI.act h x a).
Proof.
  intros Hsh. destruct x; cbn [UI.act].
  - rewrite ui_addContact_spec. apply render_shows.
  - destruct (first_or_none (has_id i) (contacts (manager a)))
      as [Hn | (before & c & after & Hs & Hb & Hc)].
    + now rewrite (ui_updateContact_missing h i _ a Hn).
    + rewrite (ui_updateContact_found h i _ a before c after Hs Hb Hc).
      apply render_shows.
  - destruct (first_or_none (has_id i) (contacts (manager a)))
      as [Hn | (before & c & after & Hs & Hb & Hc)].
    + now rewrite (ui_deleteContact_missing h i a Hn).
    + rewrite (ui_deleteContact_found h i a before c after Hs Hb Hc).
      apply render_shows.
  - unfold UI.searchContacts. apply renderContacts_shows; [| exact Hsh].
    unfold searchContacts. now destruct (negb (JS.truthy (JS.trim query))).
  - now apply shows_saveContact.
  - now apply (shows_same h a).
  - unfold UI.openEditModal.
    destruct (find (has_id i) (contacts (manager a))); [| exact Hsh].
    now apply (shows_same h a).
  - now apply (shows_same h a).
  - unfold UI.confirmDelete.
    destruct (find (has_id i) (contacts (manager a))) as [c |] eqn:Hfind;
      [| exact Hsh].
    destruct answer; [| now apply (shows_same h a)].
    destruct (find_some_split _ _ _ Hfind) as (before & after & Hs & Hb & Hc).
    match goal with |- context [UI.deleteContact h i ?a1] =>
      rewrite (ui_deleteContact_found h i a1 before c after Hs Hb Hc)
    end.
    apply render_shows.
  - now apply (shows_same h a).
Qed.

(** X20.  After the manager is constructed and after every handler, the
    page shows the manager's state: the container holds the cards of the
    filtered view, in order, the empty-state element is displayed exactly
    when that view is empty, and the counter holds the number of all
    contacts, not of the filtered ones. *)
Theorem page_shows_state (h : Host) (clock : nat -> Clock)
    (slot : option (list StoredContact)) (p : Page) (actions : list UI.Action) :
  shows h (UI.run h actions (UI.init h clock slot p)).
Proof.
  assert (H0 : shows h (UI.init h clock slot p)) by apply render_shows.
  revert H0. generalize (UI.init h clock slot p).
  induction actions as [| x actions IH]; intros a Ha; [exact Ha |].
  cbn [UI.run fold_left]. apply IH. now apply shows_act.
Qed.

Lemma occurs_here (t b : string) : occurs_in t (t ++ b).
Proof. now exists "", b. Qed.

Lemma occurs_whole (t : string) : occurs_in t t.
Proof.
  exists "", "". simpl.
  induction t as [| c t IH]; simpl; [reflexivity | now rewrite <- IH].
Qed.

Lemma occurs_later (a t s : string) : occurs_in t s -> occurs_in t (a ++ s).
Proof.
  intros (x & y & ->). exists (a ++ x)%string, y.
  now rewrite string_app_assoc.
Qed.

Lemma occurs_left (t a b : string) : occurs_in t a -> occurs_in t (a ++ b).
Proof.
  intros (x & y & ->). exists x, (y ++ b)%string.
  now rewrite !string_app_assoc.
Qed.

Ltac find_in :=
  first [ apply occurs_here
        | apply occurs_whole
        | (apply occurs_later; find_in)
        | (apply occurs_left; find_in) ].

Lemma card_verbatim (h : Host) (c : Contact) :
  occurs_in (getFullName c) (UI.card h c)
  /\ occurs_in (userName c) (UI.card h c)
  /\ occurs_in (phone c) (UI.card h c)
  /\ (email c <> "" -> occurs_in (email c) (UI.card h c))
  /\ (address c <> "" -> occurs_in (address c) (UI.card h c)).
Proof.
  unfold UI.card.
  split; [find_in |]. split; [find_in |]. split; [find_in |]. split.
  - intros He. apply truthy_true_iff in He. rewrite He.
    unfold UI.optionalLine. find_in.
  - intros Ha. apply truthy_true_iff in Ha. rewrite Ha.
    unfold UI.optionalLine. find_in.
Qed.

Lemma occurs_in_concat (t x : string) (l : list string) :
  In x l -> occurs_in t x -> occurs_in t (String.concat "" l).
Proof.
  intros Hin Ht. induction l as [| y l IH]; [contradiction |].
  cbn [String.concat]. destruct l as [| z l].
  - destruct Hin as [-> | []]. exact Ht.
  - destruct Hin as [-> | Hin].
    + now apply occurs_left.
    + apply occurs_later. apply occurs_later. now apply IH.
Qed.

(** X21.  The text of a record goes into the markup as it is: after
    [renderContacts], the HTML of the container contains the full name,
    the user name and the phone of every record of the filtered view,
    and its email and address when not empty, character for character,
    whatever characters they are. *)
Theorem markup_is_verbatim (h : Host) (m : ContactManager) (p : Page) (c : Contact) :
  In c (filteredContacts m) ->
  container p <> None -> emptyState p <> None ->
  exists html,
    container (UI.renderContacts h m p) = Some html
    /\ occurs_in (getFullName c) html
    /\ occurs_in (userName c) html
    /\ occurs_in (phone c) html
    /\ (email c <> "" -> occurs_in (email c) html)
    /\ (address c <> "" -> occurs_in (address c) html).
Proof.
  intros Hin Hc He. unfold UI.renderContacts.
  destruct (container p) as [html |]; [| contradiction].
  destruct (emptyState p) as [disp |]; [| contradiction].
  destruct (filteredContacts m) as [| c0 l] eqn:Hf; [contradiction |].
  cbn [List.length Nat.eqb]. exists (UI.cards h (c0 :: l)).
  split; [reflexivity |].
  destruct (card_verbatim h c) as (H1 & H2 & H3 & H4 & H5).
  assert (Hcard : In (UI.card h c) (map (UI.card h) (c0 :: l)))
    by now apply in_map.
  unfold UI.cards.
  repeat split; try intros Hne;
    apply (occurs_in_concat _ _ _ Hcard); auto.
Qed.

Lemma markup_is_verbatim_witness :
  exists html,
    container (UI.renderContacts Demo.host (manager Demo.withMarkup)
                 (page Demo.withMarkup)) = Some html
    /\ occurs_in (getFullName Demo.markupRecord) html
    /\ occurs_in (userName Demo.markupRecord) html
    /\ occurs_in (phone Demo.markupRecord) html
    /\ (email Demo.markupRecord <> "" -> occurs_in (email Demo.markupRecord) html)
    /\ (address Demo.markupRecord <> "" -> occurs_in (address Demo.markupRecord) html).
Proof.
  apply (markup_is_verbatim Demo.host (manager Demo.withMarkup)
           (page Demo.withMarkup) Demo.markupRecord).
  - left. reflexivity.
  - discriminate.
  - discriminate.
Defined.

(** ** Loading what an older version stored *)

Lemma revive_from_length (clock : nat -> Clock) (n : nat) (data : list StoredContact) :
  List.length (revive_from clock n data) = List.length data.
Proof. rewrite revive_from_map. apply length_map. Qed.

(** X22.  [loadContacts] makes one record of every stored object, in
    order, whatever the clock; a stored object without [userName], [email]
    or [address] gives a record with the empty string there.  What the
    next save writes of these records lacks none of the four properties
    ([userName], [email], [address], [createdAt]). *)
Theorem load_fills_absent_fields (clock : nat -> Clock) (data : list StoredContact) :
  List.length (contacts (init clock (Some data))) = List.length data
  /\ map firstName (contacts (init clock (Some data))) = map stored_firstName data
  /\ map lastName (contacts (init clock (Some data))) = map stored_lastName data
  /\ map phone (contacts (init clock (Some data))) = map stored_phone data
  /\ map userName (contacts (init clock (Some data)))
     = map (fun d => match stored_userName d with Some u => u | None => "" end) data
  /\ map email (contacts (init clock (Some data)))
     = map (fun d => match stored_email d with Some e => e | None => "" end) data
  /\ map address (contacts (init clock (Some data)))
     = map (fun d => match stored_address d with Some x => x | None => "" end) data
  /\ filteredContacts (init clock (Some data)) = contacts (init clock (Some data))
  /\ Forall (fun d => stored_userName d <> None /\ stored_email d <> None
                      /\ stored_address d <> None
                      /\ stored_createdAt d <> StoredAbsent)
       (JSON.stringify (contacts (init clock (Some data)))).
Proof.
  unfold init, loadContacts, newManager.
  cbn [localStorage contacts set_contacts set_filteredContacts filteredContacts].
  rewrite revive_from_map.
  split; [apply length_map |].
  repeat (split; [rewrite map_map; apply map_ext; intros d; reflexivity |]).
  split.
  { rewrite map_map. apply map_ext. intros d. rewrite revive_eq.
    cbn [userName]. now destruct (stored_userName d) as [[| x u] |]. }
  repeat (split; [rewrite map_map; apply map_ext; intros d; reflexivity |]).
  split; [reflexivity |].
  unfold JSON.stringify. rewrite map_map. apply Forall_map, Forall_forall.
  intros d _. rewrite revive_eq. unfold JSON.of_contact. stored_fields.
  repeat split; try discriminate.
  destruct (stored_createdAt d); discriminate.
Qed.
